(** * Documentation generator (Node/Express/Configurations/DocumnetationGenerator.ts)

    A shallow embedding of the OpenAPI documentation assembler: the schema
    registry ([schemas]), the path table ([paths]), the path syntax
    translator, the parameter extractor, the operation compiler
    ([addDocRoute]) and the document assembler ([buildOpenApiDoc]). *)

From stdpp Require Import gmap strings list fin_maps pretty.
From Stdlib Require Import ZArith Ascii String.

Open Scope string_scope.
Set Warnings "-register-all".

(** ** Path syntax translator

    [p.replace(/:([A-Za-z0-9_]+)/g, '{$1}')].  A JS string is a sequence of
    code units; the regular expression only tells [:] and the characters of
    the class [[A-Za-z0-9_]] apart from everything else, so a string of
    [ascii] characters carries all the structure the substitution looks at. *)

Module PathSyntax.

(** The character class [[A-Za-z0-9_]]. *)
Definition is_word (c : ascii) : bool :=
  let n := nat_of_ascii c in
  (((65 <=? n) && (n <=? 90)) || ((97 <=? n) && (n <=? 122))
   || ((48 <=? n) && (n <=? 57)) || (n =? 95))%nat.

Definition is_colon (c : ascii) : bool := Ascii.eqb c ":".

(** The greedy group [([A-Za-z0-9_]+)] tried at the head of [s]: the longest
    run of class characters, and what follows it. *)
Fixpoint take_word (s : string) : string * string :=
  match s with
  | String c r =>
      if is_word c
      then let '(w, rest) := take_word r in (String c w, rest)
      else (EmptyString, s)
  | EmptyString => (EmptyString, EmptyString)
  end.

(** The global replace: matches are looked for from left to right; after a
    match the scan resumes behind it; a character that starts no match is
    copied.  [fuel] bounds the number of scan positions. *)
Fixpoint replace_placeholders (fuel : nat) (p : string) : string :=
  match fuel with
  | O => EmptyString
  | S fuel' =>
      match p with
      | EmptyString => EmptyString
      | String c r =>
          if is_colon c then
            match take_word r with
            | (EmptyString, _) => String c (replace_placeholders fuel' r)
            | (w, rest) =>
                "{" +:+ w +:+ "}" +:+ replace_placeholders fuel' rest
            end
          else String c (replace_placeholders fuel' r)
      end
  end.

Definition expressRouteToOpenApiRoute (p : string) : string :=
  replace_placeholders (String.length p) p.

(** [starts_word s]: the first character of [s] is in the class. *)
Definition starts_word (s : string) : bool :=
  match s with
  | String c _ => is_word c
  | EmptyString => false
  end.

(** [all_word s]: every character of [s] is in the class. *)
Fixpoint all_word (s : string) : bool :=
  match s with
  | String c r => is_word c && all_word r
  | EmptyString => true
  end.

(** [no_placeholder s]: no [:] of [s] is followed by a class character,
    that is, the regular expression matches nowhere in [s]. *)
Fixpoint no_placeholder (s : string) : bool :=
  match s with
  | String c r => negb (is_colon c && starts_word r) && no_placeholder r
  | EmptyString => true
  end.

End PathSyntax.

(** ** Data model *)

(** JSON-like values: the structural schemas handed back by the schema
    converter and stored in the registry.  An object keeps its members in
    insertion order. *)
Inductive Json : Type :=
| JUndefined
| JNull
| JBool (b : bool)
| JNum (n : Z)
| JStr (s : string)
| JArr (items : list Json)
| JObj (members : list (string * Json)).

(** [o[k]] on the members of an object. *)
Fixpoint obj_get {A} (k : string) (members : list (string * A)) : option A :=
  match members with
  | [] => None
  | (k', v) :: rest => if decide (k' = k) then Some v else obj_get k rest
  end.

(** [o[k] = v] on the members of an object: an own key keeps its position
    and takes the new value, a new key is appended. *)
Fixpoint obj_set {A} (k : string) (v : A) (members : list (string * A))
  : list (string * A) :=
  match members with
  | [] => [(k, v)]
  | (k', v') :: rest =>
      if decide (k' = k) then (k, v) :: rest else (k', v') :: obj_set k v rest
  end.

(** Zod schema values, as far as the generator looks into them: whether a
    schema is a [z.ZodObject], the entries of its [shape] (in the order of
    [Object.entries]), and the metadata attached with [.meta]. *)
Definition Meta : Type := list (string * string).

Inductive ZodTypeAny : Type :=
| ZodScalar (typeName : string) (meta : Meta)
| ZodArray (element : ZodTypeAny) (meta : Meta)
| ZodObject (shape : list (string * ZodTypeAny)) (meta : Meta).

(** [SchemaResult] of zod-openapi: [components] is an optional member. *)
Record SchemaResult : Type := {
  schema : Json;
  components : option (list (string * Json));
}.

Inductive MethodType : Type := get | post | put | patch | delete.
Inductive AuthenticatedUser : Type := none | user | admin.
Inductive ParamType : Type := path | query | cookie.
Inductive ContentType : Type := application_json | multipart_form_data.
Inductive FileFieldType : Type := binary | array.

#[global] Instance MethodType_eq_dec : EqDecision MethodType.
Proof. solve_decision. Defined.

#[global] Instance MethodType_countable : Countable MethodType.
Proof.
  refine (inj_countable'
    (λ m, match m with get => 0 | post => 1 | put => 2 | patch => 3 | delete => 4 end)
    (λ n, match n with 0 => get | 1 => post | 2 => put | 3 => patch | _ => delete end)
    _).
  by intros [].
Defined.

#[global] Instance AuthenticatedUser_eq_dec : EqDecision AuthenticatedUser.
Proof. solve_decision. Defined.

Record FileField : Type := {
  ff_name : string;
  ff_required : option bool;
  ff_description : option string;
  ff_type : option FileFieldType;
}.

Record ParamsOpenApiSchema : Type := {
  p_name : string;
  p_in : ParamType;
  p_required : bool;
  p_schema : SchemaResult;
}.

Record RequestSchemas : Type := {
  rs_params : option ZodTypeAny;
  rs_query : option ZodTypeAny;
  rs_body : option ZodTypeAny;
  rs_contentType : option ContentType;
  rs_cookies : option ZodTypeAny;
  rs_optionalParams : option (list string);
  rs_fileFields : option (list FileField);
}.

(** A value of the [responses] record of a route. *)
Record ResponseDecl : Type := {
  rd_description : string;
  rd_schema : option ZodTypeAny;
  rd_cookies : option string;
  rd_contentType : option ContentType;
}.

(** [ErrorName] is a string enum: its members are used as descriptions and
    inside schema references. *)
Definition ErrorName : Type := string.

(** [AddDocRouteParams].  [responses] lists the entries of the record in the
    order of [Object.entries]; a status code is a key of that record. *)
Record AddDocRouteParams : Type := {
  name : string;
  route : string;
  method : MethodType;
  summary : string;
  requestSchemas : option RequestSchemas;
  responses : list (N * ResponseDecl);
  errors : option (list ErrorName);
  authenticatedUser : AuthenticatedUser;
  tags : option (list string);
}.

(** A value of [op.responses]: [description], the [Set-Cookie] header
    description when there is one, and the content type with the [$ref] of
    the content schema when there is a content block. *)
Record ResponseObject : Type := {
  description : string;
  setCookie : option string;
  content : option (ContentType * string);
}.

Record RequestBody : Type := {
  rb_required : bool;
  rb_content : ContentType * string;
}.

(** A security requirement object: scheme name to scopes. *)
Definition SecurityRequirement : Type := list (string * list string).

(** The operation [op] built by [addDocRoute]. *)
Record Operation : Type := {
  op_summary : string;
  op_parameters : list ParamsOpenApiSchema;
  op_responses : gmap N ResponseObject;
  op_tags : option (list string);
  op_security : option (list SecurityRequirement);
  op_requestBody : option RequestBody;
}.

(** The module-level state: the registry [schemas], the path table [paths]
    (path, then method), and the file written by [createOpenApiFile]. *)
Record Store : Type := {
  schemas : gmap string Json;
  paths : gmap string (gmap MethodType Operation);
  openapi_json : option string;
}.

Definition empty_store : Store :=
  {| schemas := ∅; paths := ∅; openapi_json := None |}.

(** The argument of [createDocument]. *)
Record DocumentInput : Type := {
  di_openapi : string;
  di_info : string * string;
  di_paths : gmap string (gmap MethodType Operation);
  di_schemas : gmap string Json;
  di_securitySchemes : list (string * list (string * string));
}.

Record BaseSchema : Type := {
  bs_name : string;
  bs_schema : ZodTypeAny;
}.

(** ** Effects: the store is threaded through every call, and a call either
    returns or raises; the store survives a raise. *)
Inductive Exn : Type := TypeError | IOError.

Inductive Outcome (A : Type) : Type :=
| Ret (a : A)
| Raise (e : Exn).
Arguments Ret {A} a.
Arguments Raise {A} e.

Definition M (A : Type) : Type := Store → Outcome A * Store.

Definition ret {A} (a : A) : M A := λ st, (Ret a, st).

Definition bind {A B} (m : M A) (k : A → M B) : M B :=
  λ st, match m st with
        | (Ret a, st') => k a st'
        | (Raise e, st') => (Raise e, st')
        end.

Notation "'let!' x ':=' m 'in' k" := (bind m (λ x, k))
  (at level 10, x name, m at level 100, k at level 200).

(** ** A small instance of the outside world, for worked examples *)

Module Demo.

Definition meta_of (z : ZodTypeAny) : Meta :=
  match z with
  | ZodScalar _ m | ZodArray _ m | ZodObject _ m => m
  end.

(** The structure of a schema, as a schema object. *)
Fixpoint describe (z : ZodTypeAny) : Json :=
  match z with
  | ZodScalar t _ => JObj [("type", JStr t)]
  | ZodArray e _ => JObj [("type", JStr "array"); ("items", describe e)]
  | ZodObject shape _ =>
      JObj [("type", JStr "object");
            ("properties", JObj (map (λ kv, (kv.1, describe kv.2)) shape))]
  end.

(** A converter that registers a schema whose metadata carries an [id] as
    a component under that [id], and answers without a [components] member
    for any other schema.  (zod-openapi answers with an empty components
    object there: see [createSchemaLib] below.) *)
Definition createSchema (z : ZodTypeAny) : SchemaResult :=
  match obj_get "id" (meta_of z) with
  | Some id =>
      {| schema := JObj [("$ref", JStr ("#/components/schemas/" +:+ id))];
         components := Some [(id, describe z)] |}
  | None => {| schema := describe z; components := None |}
  end.

(** An error table in which two kinds share the status 401; the kinds
    [DATABASE_ERROR] and [CACHE_ERROR] have no entry. *)
Definition errorStatusMap : gmap ErrorName N :=
  {[ "UNAUTHORIZED" := 401%N; "TOKEN_EXPIRED" := 401%N;
     "VALIDATION_ERROR" := 400%N; "NOT_FOUND" := 404%N;
     "INTERNAL_SERVER_ERROR" := 500%N ]}.

Definition zString : ZodTypeAny := ZodScalar "string" [].

(** [GET /items/:id], for a signed-in user. *)
Definition getItem : AddDocRouteParams :=
  {| name := "getItem"; route := "/items/:id"; method := get;
     summary := "Fetch one item";
     requestSchemas :=
       Some {| rs_params :=
                 Some (ZodObject [("id", zString)] [("id", "GetItemParams")]);
               rs_query := None; rs_body := None; rs_contentType := None;
               rs_cookies := None; rs_optionalParams := None;
               rs_fileFields := None |};
     responses :=
       [(200%N, {| rd_description := "The item";
                   rd_schema := Some (ZodObject [("title", zString)] [("id", "Item")]);
                   rd_cookies := None; rd_contentType := None |})];
     errors := None;
     authenticatedUser := user;
     tags := Some ["items"] |}.

(** A route that declares a response at 401 of its own. *)
Definition getProfile : AddDocRouteParams :=
  {| name := "getProfile"; route := "/profile"; method := get;
     summary := "Fetch the profile";
     requestSchemas := None;
     responses :=
       [(200%N, {| rd_description := "The profile"; rd_schema := None;
                   rd_cookies := None; rd_contentType := None |});
        (401%N, {| rd_description := "Sign in first"; rd_schema := None;
                   rd_cookies := None; rd_contentType := None |})];
     errors := None;
     authenticatedUser := user;
     tags := None |}.

(** A route that declares two kinds with the status 401. *)
Definition refreshSession : AddDocRouteParams :=
  {| name := "refreshSession"; route := "/session"; method := post;
     summary := "Refresh the session";
     requestSchemas := None;
     responses :=
       [(200%N, {| rd_description := "Refreshed"; rd_schema := None;
                   rd_cookies := None; rd_contentType := None |})];
     errors := Some ["UNAUTHORIZED"; "TOKEN_EXPIRED"];
     authenticatedUser := user;
     tags := None |}.

(** A route that declares two kinds without entry in the table. *)
Definition listItems : AddDocRouteParams :=
  {| name := "listItems"; route := "/items"; method := get;
     summary := "List the items";
     requestSchemas := None;
     responses :=
       [(200%N, {| rd_description := "The items"; rd_schema := None;
                   rd_cookies := None; rd_contentType := None |})];
     errors := Some ["DATABASE_ERROR"; "CACHE_ERROR"];
     authenticatedUser := none;
     tags := None |}.

Definition fileField : FileField :=
  {| ff_name := "file"; ff_required := Some true;
     ff_description := Some "The upload"; ff_type := None |}.

(** A multipart route whose body is a registered array schema. *)
Definition uploadTags : AddDocRouteParams :=
  {| name := "uploadTags"; route := "/tags"; method := post;
     summary := "Upload tags";
     requestSchemas :=
       Some {| rs_params := None; rs_query := None;
               rs_body := Some (ZodArray zString [("id", "Tags")]);
               rs_contentType := Some multipart_form_data;
               rs_cookies := None; rs_optionalParams := None;
               rs_fileFields := Some [fileField] |};
     responses :=
       [(201%N, {| rd_description := "Stored"; rd_schema := None;
                   rd_cookies := None; rd_contentType := None |})];
     errors := None;
     authenticatedUser := none;
     tags := None |}.

Definition profileSchema : ZodTypeAny :=
  ZodObject [("nickname", zString)] [("id", "Profile")].

Definition avatarSchema : ZodTypeAny :=
  ZodObject [("caption", zString)] [("id", "Avatar")].

(** A converter that registers a schema under its [id] or else its [ref]. *)
Definition createSchemaByRef (z : ZodTypeAny) : SchemaResult :=
  match obj_get "id" (meta_of z) with
  | Some id => createSchema z
  | None =>
      match obj_get "ref" (meta_of z) with
      | Some ref =>
          {| schema := JObj [("$ref", JStr ("#/components/schemas/" +:+ ref))];
             components := Some [(ref, describe z)] |}
      | None => {| schema := describe z; components := None |}
      end
  end.

Definition errorNames : list ErrorName :=
  ["UNAUTHORIZED"; "VALIDATION_ERROR"; "NOT_FOUND"].

Definition errorSchema_shape : list (string * ZodTypeAny) :=
  [("name", zString); ("message", zString)].

Definition baseSchemas : list BaseSchema :=
  [ {| bs_name := "Pagination";
       bs_schema :=
         ZodObject [("page", ZodScalar "number" [])] [("id", "Pagination")] |} ].

(** A route without authentication and without request schemas. *)
Definition health : AddDocRouteParams :=
  {| name := "health"; route := "/health"; method := get;
     summary := "Liveness";
     requestSchemas := None;
     responses :=
       [(200%N, {| rd_description := "Alive"; rd_schema := None;
                   rd_cookies := None; rd_contentType := None |})];
     errors := Some ["NOT_FOUND"];
     authenticatedUser := none;
     tags := None |}.

(** A route with every kind of request schema, a file field, and three
    declared responses: one with a schema and a cookie note, one without
    schema but with a cookie note, one whose schema does not register. *)
Definition updateProfile : AddDocRouteParams :=
  {| name := "updateProfile"; route := "/users/:userId/profile";
     method := put;
     summary := "Update the profile";
     requestSchemas :=
       Some {| rs_params :=
                 Some (ZodObject [("userId", zString)]
                         [("id", "UpdateProfileParams")]);
               rs_query :=
                 Some (ZodObject [("notify", zString); ("lang", zString)]
                         [("id", "UpdateProfileQuery")]);
               rs_body := Some profileSchema;
               rs_contentType := Some multipart_form_data;
               rs_cookies :=
                 Some (ZodObject [("session", zString)]
                         [("id", "UpdateProfileCookies")]);
               rs_optionalParams := Some ["lang"];
               rs_fileFields := Some [fileField] |};
     responses :=
       [(200%N, {| rd_description := "Updated";
                   rd_schema := Some avatarSchema;
                   rd_cookies := Some "session";
                   rd_contentType := None |});
        (204%N, {| rd_description := "Nothing to do"; rd_schema := None;
                   rd_cookies := Some "session"; rd_contentType := None |});
        (422%N, {| rd_description := "Unprocessable";
                   rd_schema := Some zString;
                   rd_cookies := None; rd_contentType := None |})];
     errors := None;
     authenticatedUser := admin;
     tags := Some ["users"] |}.

(** A converter that answers as the library does for a schema without [id]:
    with a components object that is there and empty. *)
Definition createSchemaLib (z : ZodTypeAny) : SchemaResult :=
  match obj_get "id" (meta_of z) with
  | Some id => createSchema z
  | None => {| schema := describe z; components := Some [] |}
  end.

(** A route whose body and only response have schemas without [id]. *)
Definition postNote : AddDocRouteParams :=
  {| name := "postNote"; route := "/notes"; method := post;
     summary := "Post a note";
     requestSchemas :=
       Some {| rs_params := None;
               rs_query := Some (ZodObject [("draft", zString)] []);
               rs_body := Some (ZodObject [("text", zString)] []);
               rs_contentType := None; rs_cookies := None;
               rs_optionalParams := None; rs_fileFields := None |};
     responses :=
       [(201%N, {| rd_description := "Posted";
                   rd_schema := Some avatarSchema;
                   rd_cookies := None; rd_contentType := None |})];
     errors := None;
     authenticatedUser := none;
     tags := None |}.

Definition staleOperation : Operation :=
  {| op_summary := "Stale"; op_parameters := []; op_responses := ∅;
     op_tags := None; op_security := None; op_requestBody := None |}.

Definition otherOperation : Operation :=
  {| op_summary := "Other"; op_parameters := []; op_responses := ∅;
     op_tags := None; op_security := None; op_requestBody := None |}.

(** A store that already documents [GET /items/{id}], [DELETE /items/{id}]
    and [GET /items]. *)
Definition busyStore : Store :=
  {| schemas := ∅;
     paths :=
       {[ "/items/{id}" := {[ get := staleOperation; delete := otherOperation ]};
          "/items" := {[ get := otherOperation ]} ]};
     openapi_json := None |}.

Definition thumbnailField : FileField :=
  {| ff_name := "file"; ff_required := None; ff_description := None;
     ff_type := Some array |}.

End Demo.

(** ** Sitemap script (React/Scripts/generateSiteMap.ts): its helpers *)

Module SiteMap.

(** [s.includes(':')]. *)
Fixpoint includes_colon (s : string) : bool :=
  match s with
  | EmptyString => false
  | String c r => Ascii.eqb c ":" || includes_colon r
  end.

Definition isParamRoute (routeStr : string) : bool := includes_colon routeStr.

(** [EXCLUDED_PREFIXES.some((p) => routeStr.startsWith(p))]; the list is
    built from the route constants of the application. *)
Definition isExcluded (EXCLUDED_PREFIXES : list string) (routeStr : string)
  : bool :=
  existsb (λ p, String.prefix p routeStr) EXCLUDED_PREFIXES.

Definition is_slash (c : ascii) : bool := Ascii.eqb c "/".

(** [s] begins with a slash. *)
Definition begins_with_slash (s : string) : bool :=
  match s with
  | String c _ => is_slash c
  | EmptyString => false
  end.

(** [s.replace(/^\/+/g, '')]: the leading run of slashes goes. *)
Fixpoint strip_leading_slashes (s : string) : string :=
  match s with
  | String c r => if is_slash c then strip_leading_slashes r else s
  | EmptyString => EmptyString
  end.

(** [s.replace(/\/+$/g, '')]: the trailing run of slashes goes. *)
Fixpoint strip_trailing_slashes (s : string) : string :=
  match s with
  | String c r =>
      match strip_trailing_slashes r with
      | EmptyString => if is_slash c then EmptyString else String c EmptyString
      | r' => String c r'
      end
  | EmptyString => EmptyString
  end.

Definition joinUrl (prefix seg : string) : string :=
  let a := strip_trailing_slashes prefix in
  let b := strip_leading_slashes seg in
  match a, b with
  | EmptyString, EmptyString => "/"
  | EmptyString, _ => "/" +:+ b
  | _, EmptyString => a
  | _, _ => a +:+ "/" +:+ b
  end.

(** A value of the nested routes object: a string, an object (its entries
    in the order of [Object.entries]), or anything else. *)
Inductive RouteVal : Type :=
| RString (s : string)
| RObject (entries : list (string * RouteVal))
| ROther.

(** [if (!isParamRoute(full) && !isExcluded(full)) out.push(full)]. *)
Definition push_indexable (EXCLUDED_PREFIXES : list string) (full : string)
    (out : list string) : list string :=
  if negb (isParamRoute full) && negb (isExcluded EXCLUDED_PREFIXES full)
  then (out ++ [full])%list else out.

(** [collectRoutes(obj, prefix, out)] for the object [RObject entries]; the
    array [out] is shared by all the calls and returned. *)
Fixpoint collectRoutes (EXCLUDED_PREFIXES : list string) (obj : RouteVal)
    (prefix : string) (out : list string) : list string :=
  match obj with
  | RObject entries =>
      let '(prefix, out) :=
        match obj_get "BASE" entries with
        | Some (RString base) =>
            let baseFull := joinUrl prefix base in
            (baseFull, push_indexable EXCLUDED_PREFIXES baseFull out)
        | _ => (prefix, out)
        end in
      (fix loop (es : list (string * RouteVal)) (out : list string) :=
         match es with
         | [] => out
         | (key, val) :: rest =>
             if decide (key = "BASE") then loop rest out
             else
               match val with
               | RString s =>
                   loop rest
                     (push_indexable EXCLUDED_PREFIXES (joinUrl prefix s) out)
               | RObject _ =>
                   loop rest (collectRoutes EXCLUDED_PREFIXES val prefix out)
               | ROther => loop rest out
               end
         end) entries out
  | _ => out
  end.

(** [Array.from(new Set(arr))]: the first occurrence of each element, in
    order. *)
Definition unique {A} `{EqDecision A} (arr : list A) : list A :=
  fold_left (λ seen x, if decide (x ∈ seen) then seen else (seen ++ [x])%list)
    arr [].

(** [s.replace(/c/g, r)] for a single character [c]. *)
Fixpoint replace_char (c : ascii) (r : string) (s : string) : string :=
  match s with
  | EmptyString => EmptyString
  | String d s' =>
      if Ascii.eqb d c then r +:+ replace_char c r s'
      else String d (replace_char c r s')
  end.

(** The double quote character. *)
Definition dquote : ascii := ascii_of_nat 34.

Definition xmlEscape (s : string) : string :=
  replace_char ">" "&gt;"
    (replace_char "<" "&lt;"
       (replace_char "'" "&apos;"
          (replace_char dquote "&quot;"
             (replace_char "&" "&amp;" s)))).

(** What [xmlEscape] makes of one character. *)
Definition escaped (c : ascii) : string :=
  if Ascii.eqb c "&" then "&amp;"
  else if Ascii.eqb c dquote then "&quot;"
  else if Ascii.eqb c "'" then "&apos;"
  else if Ascii.eqb c "<" then "&lt;"
  else if Ascii.eqb c ">" then "&gt;"
  else String c EmptyString.

(** [c] occurs in [s]. *)
Fixpoint occurs (c : ascii) (s : string) : bool :=
  match s with
  | EmptyString => false
  | String d r => Ascii.eqb d c || occurs c r
  end.

End SiteMap.

(** A routes object and its excluded prefixes, for worked examples. *)
Module SiteMapDemo.
Import SiteMap.

Definition CLIENT_ROUTES : RouteVal :=
  RObject
    [("HOME", RString "/");
     ("AUTH", RString "/auth");
     ("PRODUCTS",
      RObject [("RECOMMENDED", RString "/recommended");
               ("BASE", RString "/products");
               ("DETAILS", RString "/:id")]);
     ("ADMIN",
      RObject [("BASE", RString "/admin"); ("PRODUCTS", RString "/products")]);
     ("VERSION", ROther)].

Definition EXCLUDED_PREFIXES : list string := ["/auth"; "/admin"].

End SiteMapDemo.

(** ** The generator *)

Section Generator.

(** zod-openapi: [createSchema] and [createDocument], and the type of the
    document the latter returns. *)
Variable createSchema : ZodTypeAny → SchemaResult.
Variable OpenAPIObject : Type.
Variable createDocument : DocumentInput → OpenAPIObject.

(** [JSON.stringify(openApiObject, null, 2)]. *)
Variable stringify : OpenAPIObject → string.

(** The outside world of [createOpenApiFile]: whether serializing the
    document and writing it with [fs.writeFileSync] raises, given what the
    file holds (no write permission, no directory, ...). *)
Variable write_fails : option string → OpenAPIObject → bool.

(** shared/constants/error.constants: the two members of [ErrorName] the
    generator names, [Object.values(ErrorName)], and [errorStatusMap]. *)
Variable UNAUTHORIZED VALIDATION_ERROR : ErrorName.
Variable errorNames : list ErrorName.
Variable errorStatusMap : gmap ErrorName N.

(** shared/schemas/base.schema: the shape of the object schema
    [errorSchema]; shared/constants/base.schemas.constants: [baseSchemas];
    ./env: [NODE_ENV]. *)
Variable errorSchema_shape : list (string * ZodTypeAny).
Variable baseSchemas : list BaseSchema.
Variable NODE_ENV : string.

Definition json_of_bool (o : option bool) : Json :=
  match o with Some b => JBool b | None => JUndefined end.

Definition json_of_string (o : option string) : Json :=
  match o with Some s => JStr s | None => JUndefined end.

(** The object written at [objectSchema.properties[fileField.name]]. *)
Definition fileFieldSchema (f : FileField) : Json :=
  match ff_type f with
  | Some array =>
      JObj [("type", JStr "array");
            ("required", json_of_bool (ff_required f));
            ("description", json_of_string (ff_description f));
            ("items", JObj [("type", JStr "string"); ("format", JStr "binary")])]
  | _ =>
      JObj [("type", JStr "binary");
            ("required", json_of_bool (ff_required f));
            ("description", json_of_string (ff_description f))]
  end.

(** [objectSchema.properties[k] = v].  Reading [properties] off [undefined]
    or [null], or writing a member into a [properties] that is [undefined]
    or a primitive, raises a TypeError.  ([properties] of a schema object is
    an object when present; an array there is not modelled apart.) *)
Definition set_property (k : string) (v : Json) (objectSchema : Json)
  : Outcome Json :=
  match objectSchema with
  | JObj members =>
      match obj_get "properties" members with
      | Some (JObj props) =>
          Ret (JObj (obj_set "properties" (JObj (obj_set k v props)) members))
      | _ => Raise TypeError
      end
  | _ => Raise TypeError
  end.

(** The loop over [fileFields] in [addZodSchema]. *)
Fixpoint inject_fileFields (fileFields : list FileField) (objectSchema : Json)
  : Outcome Json :=
  match fileFields with
  | [] => Ret objectSchema
  | f :: rest =>
      match set_property (ff_name f) (fileFieldSchema f) objectSchema with
      | Ret o => inject_fileFields rest o
      | Raise e => Raise e
      end
  end.

(** The field map [props] once every file field has been written into it. *)
Definition injected_properties (fileFields : list FileField)
    (props : list (string * Json)) : list (string * Json) :=
  fold_left (λ ps f, obj_set (ff_name f) (fileFieldSchema f) ps) fileFields props.

(** [Object.values(components)[0]]. *)
Definition first_component (comps : list (string * Json)) : Json :=
  match comps with
  | (_, v) :: _ => v
  | [] => JUndefined
  end.

Definition addZodSchema (name : string) (schema : ZodTypeAny)
    (fileFields : list FileField) : M bool :=
  λ st,
    let openApiSchema := createSchema schema in
    match components openApiSchema with
    | Some comps =>
        match inject_fileFields fileFields (first_component comps) with
        | Ret objectSchema =>
            (Ret true,
             {| schemas := <[name := objectSchema]> (schemas st);
                paths := paths st;
                openapi_json := openapi_json st |})
        | Raise e => (Raise e, st)
        end
    | None => (Ret false, st)
    end.

Definition generateParamDocFromSchema (name : string)
    (schema : option ZodTypeAny) (loc : ParamType)
    (optionalParams : list string) : M (list ParamsOpenApiSchema) :=
  if decide (name = "") then ret []
  else
    match schema with
    | None => ret []
    | Some sch =>
        let! addedSchema := addZodSchema name sch [] in
        if negb addedSchema then ret []
        else
          match sch with
          | ZodObject shape _ =>
              ret (map (λ kv : string * ZodTypeAny,
                          {| p_name := kv.1;
                             p_in := loc;
                             p_required :=
                               if decide (kv.1 ∈ optionalParams) then false else true;
                             p_schema := createSchema kv.2 |})
                       shape)
          | _ => ret []
          end
    end.

(** [if (!errors.includes(e)) errors.push(e)]. *)
Definition push_if_missing (e : ErrorName) (errors : list ErrorName)
  : list ErrorName :=
  if decide (e ∈ errors) then errors else errors ++ [e].

Definition set_security (s : list SecurityRequirement) (op : Operation)
  : Operation :=
  {| op_summary := op_summary op; op_parameters := op_parameters op;
     op_responses := op_responses op; op_tags := op_tags op;
     op_security := Some s; op_requestBody := op_requestBody op |}.

Definition push_parameters (ps : list ParamsOpenApiSchema) (op : Operation)
  : Operation :=
  {| op_summary := op_summary op; op_parameters := op_parameters op ++ ps;
     op_responses := op_responses op; op_tags := op_tags op;
     op_security := op_security op; op_requestBody := op_requestBody op |}.

Definition set_requestBody (b : RequestBody) (op : Operation) : Operation :=
  {| op_summary := op_summary op; op_parameters := op_parameters op;
     op_responses := op_responses op; op_tags := op_tags op;
     op_security := op_security op; op_requestBody := Some b |}.

(** [op.responses[status] = r]. *)
Definition set_response (status : N) (r : ResponseObject) (op : Operation)
  : Operation :=
  {| op_summary := op_summary op; op_parameters := op_parameters op;
     op_responses := <[status := r]> (op_responses op); op_tags := op_tags op;
     op_security := op_security op; op_requestBody := op_requestBody op |}.

Definition schemaRef (n : string) : string := "#/components/schemas/" +:+ n.

(** The block that follows each call of the parameter extractor:
    [if (ps.length > 0) { ...VALIDATION_ERROR...; op.parameters.push(...ps) }]. *)
Definition note_parameters (ps : list ParamsOpenApiSchema)
    (eo : list ErrorName * Operation) : list ErrorName * Operation :=
  match ps with
  | [] => eo
  | _ :: _ => (push_if_missing VALIDATION_ERROR eo.1, push_parameters ps eo.2)
  end.

(** [cookies ? {headers: ...} : undefined]: the empty string is falsy. *)
Definition cookiesOpenApi (cookies : option string) : option string :=
  match cookies with
  | Some c => if decide (c = "") then None else Some c
  | None => None
  end.

(** The loop over [Object.entries(responses)]. *)
Fixpoint declareResponses (name : string) (entries : list (N * ResponseDecl))
    (op : Operation) : M Operation :=
  match entries with
  | [] => ret op
  | (statusCode, r) :: rest =>
      match rd_schema r with
      | Some sch =>
          let responseName := name +:+ ":response" +:+ pretty statusCode in
          let! addedSchema := addZodSchema responseName sch [] in
          if (addedSchema : bool) then
            declareResponses name rest
              (set_response statusCode
                 {| description := rd_description r;
                    setCookie := cookiesOpenApi (rd_cookies r);
                    content :=
                      Some (default application_json (rd_contentType r),
                            schemaRef responseName) |}
                 op)
          else declareResponses name rest op
      | None =>
          declareResponses name rest
            (set_response statusCode
               {| description := rd_description r;
                  setCookie := None;
                  content := None |}
               op)
      end
  end.

(** [errorStatusMap[err] ?? 500]. *)
Definition statusOf (err : ErrorName) : N := default 500%N (errorStatusMap !! err).

Definition errorResponse (err : ErrorName) : ResponseObject :=
  {| description := err;
     setCookie := None;
     content := Some (application_json, schemaRef err) |}.

(** The loop [for (const err of errors)]. *)
Definition declareErrors (errors : list ErrorName) (op : Operation) : Operation :=
  fold_left (λ op err, set_response (statusOf err) (errorResponse err) op)
            errors op.

(** The kind whose response the loop leaves at [status]: the last kind of
    [errors] that resolves to [status]. *)
Definition last_resolving (status : N) (errors : list ErrorName)
  : option ErrorName :=
  last (filter (λ e, statusOf e = status) errors).

Definition bearerAuth : list SecurityRequirement := [[("bearerAuth", [])]].

(** [addDocRoute] up to the end of its last loop: the operation [op], and
    the content of the array [errors] at that point.  (When the route gives
    [errors], that array is the route's own, pushed to in place.) *)
Definition compileOperation (params : AddDocRouteParams)
  : M (Operation * list ErrorName) :=
  let name := name params in
  let requestSchemas := requestSchemas params in
  let errors := default [] (errors params) in
  let op :=
    {| op_summary := summary params; op_parameters := [];
       op_responses := ∅; op_tags := tags params;
       op_security := None; op_requestBody := None |} in
  let eo :=
    if decide (authenticatedUser params = none) then (errors, op)
    else (push_if_missing UNAUTHORIZED errors, set_security bearerAuth op) in
  let optionalParams := default [] (requestSchemas ≫= rs_optionalParams) in
  let! pathParams :=
    generateParamDocFromSchema (name +:+ ":params")
      (requestSchemas ≫= rs_params) path optionalParams in
  let eo := note_parameters pathParams eo in
  let! queryParams :=
    generateParamDocFromSchema (name +:+ ":query")
      (requestSchemas ≫= rs_query) query optionalParams in
  let eo := note_parameters queryParams eo in
  let! cookieParams :=
    generateParamDocFromSchema (name +:+ ":cookies")
      (requestSchemas ≫= rs_cookies) cookie optionalParams in
  let eo := note_parameters cookieParams eo in
  let! eo :=
    match requestSchemas ≫= rs_body with
    | Some body =>
        let! addedSchema :=
          addZodSchema (name +:+ ":body") body
            (default [] (requestSchemas ≫= rs_fileFields)) in
        if (addedSchema : bool) then
          ret (push_if_missing VALIDATION_ERROR eo.1,
               set_requestBody
                 {| rb_required := true;
                    rb_content :=
                      (default application_json (requestSchemas ≫= rs_contentType),
                       schemaRef (name +:+ ":body")) |}
                 eo.2)
        else ret eo
    | None => ret eo
    end in
  let! op := declareResponses name (responses params) eo.2 in
  ret (declareErrors eo.1 op, eo.1).

(** [paths[openApiPath] ??= {}; paths[openApiPath][method] = op]. *)
Definition set_path (openApiPath : string) (m : MethodType) (op : Operation)
    (paths : gmap string (gmap MethodType Operation))
  : gmap string (gmap MethodType Operation) :=
  <[openApiPath := <[m := op]> (default ∅ (paths !! openApiPath))]> paths.

(** [paths[p]?.[m]]. *)
Definition path_entry (paths : gmap string (gmap MethodType Operation))
    (p : string) (m : MethodType) : option Operation :=
  paths !! p ≫= λ item, item !! m.

(** [addDocRoute].  The value handed back is the content of [errors] when
    the function returns ([addDocRoute] itself returns nothing). *)
Definition addDocRoute (params : AddDocRouteParams) : M (list ErrorName) :=
  let openApiPath := PathSyntax.expressRouteToOpenApiRoute (route params) in
  let! compiled := compileOperation params in
  λ st,
    (Ret compiled.2,
     {| schemas := schemas st;
        paths := set_path openApiPath (method params) compiled.1 (paths st);
        openapi_json := openapi_json st |}).

(** [errorSchema.extend({name: ...}).meta({ref: name, ...})]. *)
Definition customErrorSchema (n : ErrorName) : ZodTypeAny :=
  ZodObject
    (obj_set "name"
       (ZodScalar "string"
          [("description", "Error class name."); ("example", n)])
       errorSchema_shape)
    [("ref", n); ("description", n +:+ " response")].

(** [names.forEach((name) => { ...; addZodSchema(name, customErrorSchema) })]. *)
Fixpoint forEach_errorName (names : list ErrorName) : M unit :=
  match names with
  | [] => ret ()
  | n :: rest =>
      let! added := addZodSchema n (customErrorSchema n) [] in
      forEach_errorName rest
  end.

Definition addErrorComponents : M unit := forEach_errorName errorNames.

(** [for (const baseSchema of baseSchemas) addZodSchema(...)]. *)
Fixpoint registerBaseSchemas (bs : list BaseSchema) : M unit :=
  match bs with
  | [] => ret ()
  | b :: rest =>
      let! added := addZodSchema (bs_name b) (bs_schema b) [] in
      registerBaseSchemas rest
  end.

(** What a run of [addZodSchema(name, schema)] calls, none with file
    fields, does to the registry. *)
Definition registerAll (l : list (string * ZodTypeAny))
    (reg : gmap string Json) : gmap string Json :=
  fold_left
    (λ reg ns,
       match components (createSchema ns.2) with
       | Some comps => <[ns.1 := first_component comps]> reg
       | None => reg
       end)
    l reg.

(** The registrations of [buildOpenApiDoc], in order. *)
Definition globalSchemas : list (string * ZodTypeAny) :=
  map (λ b, (bs_name b, bs_schema b)) baseSchemas
  ++ map (λ n, (n, customErrorSchema n)) errorNames.

(** [createOpenApiFile]: the text written at the output path.  Nothing
    catches a failing write: it raises, and the file is taken to be as it
    was. *)
Definition createOpenApiFile (openApiObject : OpenAPIObject) : M unit :=
  λ st,
    if write_fails (openapi_json st) openApiObject then (Raise IOError, st)
    else
      (Ret (),
       {| schemas := schemas st; paths := paths st;
          openapi_json := Some (stringify openApiObject) |}).

(** The argument [buildOpenApiDoc] hands to [createDocument] when called on
    a store with registry [reg] and path table [pt]. *)
Definition builtInput (reg : gmap string Json)
    (pt : gmap string (gmap MethodType Operation)) : DocumentInput :=
  {| di_openapi := "3.0.0";
     di_info := ("My API", "1.0.0");
     di_paths := pt;
     di_schemas := registerAll globalSchemas reg;
     di_securitySchemes :=
       [("bearerAuth",
         [("type", "http"); ("scheme", "bearer"); ("bearerFormat", "JWT")])] |}.

Definition documentInput (st : Store) : DocumentInput :=
  {| di_openapi := "3.0.0";
     di_info := ("My API", "1.0.0");
     di_paths := paths st;
     di_schemas := schemas st;
     di_securitySchemes :=
       [("bearerAuth",
         [("type", "http"); ("scheme", "bearer"); ("bearerFormat", "JWT")])] |}.

Definition buildOpenApiDoc : M OpenAPIObject :=
  let! registered := registerBaseSchemas baseSchemas in
  let! added := addErrorComponents in
  λ st,
    let openApiObject := createDocument (documentInput st) in
    if decide (NODE_ENV = "development")
    then (let! written := createOpenApiFile openApiObject in ret openApiObject) st
    else (Ret openApiObject, st).


(** ** Notions used to state what the compiler leaves behind *)

(** The registry keys [addDocRoute] may write for a route: the names it
    passes to [addZodSchema]. *)
Definition schemaNames (params : AddDocRouteParams) : list string :=
  [name params +:+ ":params"; name params +:+ ":query";
   name params +:+ ":cookies"; name params +:+ ":body"]
  ++ map (λ e : N * ResponseDecl, name params +:+ ":response" +:+ pretty e.1)
         (responses params).

(** What one round of the loop over the declared responses writes at its
    status code: nothing when the schema of the response does not register. *)
Definition responseFor (name : string) (statusCode : N) (r : ResponseDecl)
  : option ResponseObject :=
  match rd_schema r with
  | Some sch =>
      match components (createSchema sch) with
      | Some _ =>
          Some {| description := rd_description r;
                  setCookie := cookiesOpenApi (rd_cookies r);
                  content :=
                    Some (default application_json (rd_contentType r),
                          schemaRef (name +:+ ":response" +:+ pretty statusCode)) |}
      | None => None
      end
  | None =>
      Some {| description := rd_description r; setCookie := None;
              content := None |}
  end.

(** The operation as it stands in front of the loop over the declared
    responses, given the parameters pushed and the request body attached. *)
Definition operationBeforeResponses (params : AddDocRouteParams)
    (ps : list ParamsOpenApiSchema) (rb : option RequestBody) : Operation :=
  {| op_summary := summary params; op_parameters := ps;
     op_responses := ∅; op_tags := tags params;
     op_security :=
       if decide (authenticatedUser params = none) then None
       else Some bearerAuth;
     op_requestBody := rb |}.

(** The array [errors] in front of the loop over the error kinds:
    [validated] tells whether a parameter block or the body block ran. *)
Definition errorsBeforeResponses (params : AddDocRouteParams)
    (validated : bool) : list ErrorName :=
  let errors0 :=
    if decide (authenticatedUser params = none) then default [] (errors params)
    else push_if_missing UNAUTHORIZED (default [] (errors params)) in
  if validated then push_if_missing VALIDATION_ERROR errors0 else errors0.

(** The request body descriptor of a route. *)
Definition requestBodyOf (params : AddDocRouteParams) : RequestBody :=
  {| rb_required := true;
     rb_content :=
       (default application_json (requestSchemas params ≫= rs_contentType),
        schemaRef (name params +:+ ":body")) |}.

(** The file field that decides the member [k] of the field map: the last
    one of that name. *)
Definition lastFileField (k : string) (fileFields : list FileField)
  : option FileField :=
  last (filter (λ f, ff_name f = k) fileFields).

(** ** Facts about the schema registry *)

Lemma obj_get_set_eq {A} (k : string) (v : A) members :
  obj_get k (obj_set k v members) = Some v.
Proof.
  induction members as [|[k' v'] rest IH]; simpl.
  - by rewrite decide_True.
  - destruct (decide (k' = k)) as [->|Hne]; simpl.
    + by rewrite decide_True.
    + by rewrite decide_False.
Qed.

Lemma obj_get_set_ne {A} (k j : string) (v : A) members :
  k ≠ j → obj_get j (obj_set k v members) = obj_get j members.
Proof.
  intros Hkj. induction members as [|[k' v'] rest IH]; simpl.
  - by rewrite decide_False.
  - destruct (decide (k' = k)) as [->|Hne]; simpl.
    + by rewrite !decide_False.
    + destruct (decide (k' = j)); [done | apply IH].
Qed.

Lemma obj_set_set {A} (k : string) (v w : A) members :
  obj_set k w (obj_set k v members) = obj_set k w members.
Proof.
  induction members as [|[k' v'] rest IH]; simpl.
  - by rewrite decide_True.
  - destruct (decide (k' = k)) as [->|Hne]; simpl.
    + by rewrite decide_True.
    + rewrite decide_False by done. by rewrite IH.
Qed.

Lemma obj_set_same {A} (k : string) (v : A) members :
  obj_get k members = Some v → obj_set k v members = members.
Proof.
  induction members as [|[k' v'] rest IH]; simpl; [done|].
  destruct (decide (k' = k)) as [->|Hne]; [congruence|].
  intros H. by rewrite IH.
Qed.

Lemma inject_fileFields_properties fileFields members props :
  obj_get "properties" members = Some (JObj props) →
  inject_fileFields fileFields (JObj members)
  = Ret (JObj (obj_set "properties"
                 (JObj (injected_properties fileFields props)) members)).
Proof.
  revert members props.
  induction fileFields as [|f rest IH]; intros members props Hp; simpl.
  - by rewrite obj_set_same.
  - rewrite Hp.
    rewrite (IH _ (obj_set (ff_name f) (fileFieldSchema f) props))
      by apply obj_get_set_eq.
    by rewrite obj_set_set.
Qed.

Lemma inject_fileFields_no_properties f rest objectSchema :
  (∀ members props,
     objectSchema = JObj members →
     obj_get "properties" members ≠ Some (JObj props)) →
  inject_fileFields (f :: rest) objectSchema = Raise TypeError.
Proof.
  intros Hno. simpl. unfold set_property.
  destruct objectSchema as [| | | | | |members]; try done.
  destruct (obj_get "properties" members) as [[| | | | | |props]|] eqn:E;
    try done.
  by destruct (Hno members props).
Qed.

Lemma addZodSchema_nil name sch st :
  addZodSchema name sch [] st
  = match components (createSchema sch) with
    | Some comps =>
        (Ret true,
         {| schemas := <[name := first_component comps]> (schemas st);
            paths := paths st; openapi_json := openapi_json st |})
    | None => (Ret false, st)
    end.
Proof. unfold addZodSchema. by destruct (components (createSchema sch)). Qed.

Lemma addZodSchema_inv name sch fileFields st b st' :
  addZodSchema name sch fileFields st = (Ret b, st') →
  (b = false ∧ st' = st ∧ components (createSchema sch) = None)
  ∨ (b = true ∧ ∃ comps o,
       components (createSchema sch) = Some comps
       ∧ inject_fileFields fileFields (first_component comps) = Ret o
       ∧ st' = {| schemas := <[name := o]> (schemas st);
                  paths := paths st; openapi_json := openapi_json st |}).
Proof.
  unfold addZodSchema.
  destruct (components (createSchema sch)) as [comps|] eqn:Hc.
  - destruct (inject_fileFields fileFields (first_component comps)) as [o|e] eqn:Hi;
      intros [= <- <-]. right. split; [done|]. by exists comps, o.
  - intros [= <- <-]. by left.
Qed.

Lemma addZodSchema_frame name sch fileFields st r st' :
  addZodSchema name sch fileFields st = (r, st') →
  paths st' = paths st ∧ openapi_json st' = openapi_json st.
Proof.
  unfold addZodSchema.
  destruct (components (createSchema sch)) as [comps|];
    [destruct (inject_fileFields _ _)|]; by intros [= <- <-].
Qed.

(** A conversion whose result has no [components] member at all: the test
    [if (openApiSchema.components)] fails, the call returns [false] and
    leaves the store. *)
Lemma addZodSchema_absent_components name sch fileFields st :
  components (createSchema sch) = None →
  addZodSchema name sch fileFields st = (Ret false, st).
Proof. intros Hc. unfold addZodSchema. by rewrite Hc. Qed.

(** C4, where the code departs from it.  A conversion that yields no
    component answers with a components object that is there and empty, and
    an object is truthy: [addZodSchema] does not return [false].  Without
    file fields it returns [true] and enters [undefined] in the registry
    under the name, over whatever was there; with a file field it raises
    reading [properties] off [undefined]. *)
Theorem addZodSchema_empty_components name sch fileFields st :
  components (createSchema sch) = Some [] →
  (fileFields = [] →
   addZodSchema name sch fileFields st
   = (Ret true,
      {| schemas := <[name := JUndefined]> (schemas st);
         paths := paths st; openapi_json := openapi_json st |}))
  ∧ (fileFields ≠ [] →
     addZodSchema name sch fileFields st = (Raise TypeError, st))
  ∧ addZodSchema name sch fileFields st ≠ (Ret false, st)
  ∧ (fileFields = [] →
     schemas (addZodSchema name sch fileFields st).2 ≠ schemas st
     ∨ schemas st !! name = Some JUndefined).
Proof.
  intros Hc. unfold addZodSchema. rewrite Hc. simpl.
  destruct fileFields as [|f rest]; simpl.
  - split; [done|]. split; [done|]. split; [done|]. intros _.
    destruct (schemas st !! name) as [[| | | | | |]|] eqn:E; try by right.
    all: left; intros Heq; rewrite <-Heq, lookup_insert_eq in E; done.
  - split; [done|]. split; [done|]. split; done.
Qed.

(** C3, as the code has it. Of two successive successful registrations under
    one name only the second is retrievable: the registry is the one a
    single registration of the second schema would have produced.  With no
    file fields the entry is the second schema's first component; with file
    fields it is that component with the binary and array-of-binary fields
    written into its own field map.  Nothing of the earlier entry is kept. *)
Theorem addZodSchema_twice_overwrites name s1 ff1 s2 ff2 st st1 st2 :
  addZodSchema name s1 ff1 st = (Ret true, st1) →
  addZodSchema name s2 ff2 st1 = (Ret true, st2) →
  ∃ comps o2,
    components (createSchema s2) = Some comps
    ∧ inject_fileFields ff2 (first_component comps) = Ret o2
    ∧ schemas st2 !! name = Some o2
    ∧ schemas st2 = <[name := o2]> (schemas st)
    ∧ (ff2 = [] → o2 = first_component comps)
    ∧ (∀ members props,
         first_component comps = JObj members →
         obj_get "properties" members = Some (JObj props) →
         o2 = JObj (obj_set "properties"
                      (JObj (injected_properties ff2 props)) members)).
Proof.
  intros H1 H2.
  apply addZodSchema_inv in H1 as [(? & _)|(_ & c1 & o1 & _ & _ & ->)]; [done|].
  apply addZodSchema_inv in H2 as [(? & _)|(_ & comps & o2 & Hc & Hi & ->)]; [done|].
  exists comps, o2. simpl. repeat split; try done.
  - apply lookup_insert_eq.
  - apply insert_insert_eq.
  - intros ->. simpl in Hi. congruence.
  - intros members props Hm Hp. rewrite Hm in Hi.
    rewrite (inject_fileFields_properties _ _ _ Hp) in Hi. congruence.
Qed.

(** ** Facts about the parameter extractor *)

Lemma generateParamDocFromSchema_returns name sch loc optionalParams st :
  ∃ ps st',
    generateParamDocFromSchema name sch loc optionalParams st = (Ret ps, st')
    ∧ paths st' = paths st ∧ openapi_json st' = openapi_json st.
Proof.
  unfold generateParamDocFromSchema.
  destruct (decide (name = "")); [by eexists _, _|].
  destruct sch as [sch|]; [|by eexists _, _].
  unfold bind. rewrite addZodSchema_nil.
  destruct (components (createSchema sch)); simpl.
  - destruct sch; by eexists _, _.
  - by eexists _, _.
Qed.

(** C5. For an object schema whose fields are [a] and [b], with [b] the only
    optional field name, a non-empty name and a registration that succeeds,
    extraction for [query] yields exactly two descriptors: [a] required,
    [b] not required, both [in = query], each with the converted
    sub-schema of its field. *)
Theorem generateParamDocFromSchema_two_fields
    name a b va vb shape meta st :
  name ≠ "" →
  a ≠ b →
  shape ≡ₚ [(a, va); (b, vb)] →
  is_Some (components (createSchema (ZodObject shape meta))) →
  ∃ ps st',
    generateParamDocFromSchema name (Some (ZodObject shape meta)) query [b] st
    = (Ret ps, st')
    ∧ ps ≡ₚ [ {| p_name := a; p_in := query; p_required := true;
                 p_schema := createSchema va |};
              {| p_name := b; p_in := query; p_required := false;
                 p_schema := createSchema vb |} ].
Proof.
  intros Hname Hab Hshape [comps Hc].
  unfold generateParamDocFromSchema, bind.
  rewrite decide_False by done. rewrite addZodSchema_nil, Hc. simpl.
  eexists _, _. split; [reflexivity|].
  rewrite Hshape. simpl.
  rewrite decide_False by (rewrite list_elem_of_singleton; done).
  rewrite decide_True by (by apply list_elem_of_singleton).
  done.
Qed.

(** ** Facts about the operation compiler *)

Lemma push_if_missing_elem e errors : e ∈ push_if_missing e errors.
Proof.
  unfold push_if_missing. destruct (decide (e ∈ errors)); [done|].
  apply elem_of_app. right. by apply list_elem_of_singleton.
Qed.

Lemma push_if_missing_idem e errors :
  push_if_missing e (push_if_missing e errors) = push_if_missing e errors.
Proof.
  unfold push_if_missing at 1.
  by rewrite decide_True by apply push_if_missing_elem.
Qed.

Lemma declareErrors_snoc errors e op :
  declareErrors (errors ++ [e]) op
  = set_response (statusOf e) (errorResponse e) (declareErrors errors op).
Proof. unfold declareErrors. by rewrite fold_left_app. Qed.

Lemma declareErrors_frame errors op :
  op_security (declareErrors errors op) = op_security op
  ∧ op_parameters (declareErrors errors op) = op_parameters op
  ∧ op_requestBody (declareErrors errors op) = op_requestBody op.
Proof.
  induction errors as [|e errors IH] using rev_ind; [done|].
  by rewrite declareErrors_snoc.
Qed.

Lemma last_resolving_snoc status errors e :
  last_resolving status (errors ++ [e])
  = if decide (statusOf e = status) then Some e
    else last_resolving status errors.
Proof.
  unfold last_resolving. rewrite filter_app, filter_cons, filter_nil.
  destruct (decide (statusOf e = status)).
  - by rewrite last_snoc.
  - by rewrite app_nil_r.
Qed.

(** After the loop over the error kinds, the entry at a status is the
    response of the last kind that resolves to it; a status no kind resolves
    to keeps the entry it had. *)
Lemma declareErrors_lookup errors op status :
  op_responses (declareErrors errors op) !! status
  = match last_resolving status errors with
    | Some e => Some (errorResponse e)
    | None => op_responses op !! status
    end.
Proof.
  induction errors as [|e errors IH] using rev_ind; [done|].
  rewrite declareErrors_snoc, last_resolving_snoc. simpl.
  destruct (decide (statusOf e = status)) as [<-|Hne].
  - apply lookup_insert_eq.
  - by rewrite lookup_insert_ne.
Qed.

Lemma last_resolving_Some status errors e :
  last_resolving status errors = Some e → e ∈ errors ∧ statusOf e = status.
Proof.
  unfold last_resolving. intros H%last_Some_elem_of.
  apply list_elem_of_filter in H. tauto.
Qed.

Lemma last_resolving_elem err errors :
  err ∈ errors → is_Some (last_resolving (statusOf err) errors).
Proof.
  intros H. unfold last_resolving.
  destruct (last (filter _ errors)) as [e|] eqn:E; [by eexists|].
  apply last_None in E.
  assert (err ∈ filter (λ e, statusOf e = statusOf err) errors) as Hin
    by by apply list_elem_of_filter.
  rewrite E in Hin. by apply not_elem_of_nil in Hin.
Qed.

Lemma note_parameters_inv ps eo :
  ((note_parameters ps eo).1 = eo.1
   ∨ (note_parameters ps eo).1 = push_if_missing VALIDATION_ERROR eo.1)
  ∧ op_security (note_parameters ps eo).2 = op_security eo.2.
Proof. destruct ps; simpl; auto. Qed.

Lemma declareResponses_returns name entries op st :
  ∃ op' st',
    declareResponses name entries op st = (Ret op', st')
    ∧ paths st' = paths st ∧ openapi_json st' = openapi_json st
    ∧ op_security op' = op_security op.
Proof.
  revert op st. induction entries as [|[statusCode r] rest IH]; intros op st.
  - by exists op, st.
  - simpl. destruct (rd_schema r) as [sch|].
    + unfold bind. rewrite addZodSchema_nil.
      destruct (components (createSchema sch)) as [comps|]; [|apply IH].
      edestruct IH as (op' & st' & -> & ? & ? & Hs). by exists op', st'.
    + edestruct IH as (op' & st' & -> & ? & ? & Hs). by exists op', st'.
Qed.

(** Runs the call of the parameter extractor that the goal makes on the
    store [st]: it returns, with parameters [ps] and store [st']. *)
Ltac run_extractor st ps st' Hp Hf :=
  match goal with
  | |- context [generateParamDocFromSchema ?n ?sch ?loc ?opt st] =>
      destruct (generateParamDocFromSchema_returns n sch loc opt st)
        as (ps & st' & -> & Hp & Hf)
  end.

(** What a returning [compileOperation] has done: the error loop ran last,
    over the returned list; the list is the declared one, with
    [UNAUTHORIZED] pushed if missing when the route is authenticated, and
    with [VALIDATION_ERROR] pushed if missing or not at all; the path table
    and the written file are untouched. *)
Lemma compileOperation_inv params st op errs st' :
  compileOperation params st = (Ret (op, errs), st') →
  let errs0 :=
    if decide (authenticatedUser params = none) then default [] (errors params)
    else push_if_missing UNAUTHORIZED (default [] (errors params)) in
  (∃ op0, op = declareErrors errs op0
          ∧ op_security op0
            = if decide (authenticatedUser params = none) then None
              else Some bearerAuth)
  ∧ (errs = errs0 ∨ errs = push_if_missing VALIDATION_ERROR errs0)
  ∧ paths st' = paths st ∧ openapi_json st' = openapi_json st.
Proof.
  intros H errs0.
  set (sec := if decide (authenticatedUser params = none) then None
              else Some bearerAuth).
  set (I := λ eo : list ErrorName * Operation,
         (eo.1 = errs0 ∨ eo.1 = push_if_missing VALIDATION_ERROR errs0)
         ∧ op_security eo.2 = sec).
  assert (∀ ps eo, I eo → I (note_parameters ps eo)) as Hstep.
  { intros ps eo [He Hs]. destruct (note_parameters_inv ps eo) as [He' Hs'].
    split; [|congruence].
    destruct He' as [->| ->]; [done|].
    destruct He as [->| ->]; [by right|]. right. apply push_if_missing_idem. }
  revert H. unfold compileOperation. cbv zeta.
  set (eo0 := if decide (authenticatedUser params = none) then _ else _).
  assert (I eo0) as H0.
  { subst eo0 I errs0 sec. simpl.
    destruct (decide (authenticatedUser params = none)); simpl; auto. }
  clearbody eo0. unfold bind.
  run_extractor st ps1 st1 Hp1 Hf1. run_extractor st1 ps2 st2 Hp2 Hf2.
  run_extractor st2 ps3 st3 Hp3 Hf3.
  apply Hstep with (ps := ps1) in H0. apply Hstep with (ps := ps2) in H0.
  apply Hstep with (ps := ps3) in H0.
  set (eo3 := note_parameters ps3 _) in *. clearbody eo3.
  assert (∀ eo st4, I eo → paths st4 = paths st →
            openapi_json st4 = openapi_json st →
            (let (o0, st5) :=
               declareResponses (name params) (responses params) eo.2 st4 in
             match o0 with
             | Ret a0 => ret (declareErrors eo.1 a0, eo.1) st5
             | Raise e => (Raise e, st5)
             end) = (Ret (op, errs), st') →
            (∃ op0, op = declareErrors errs op0 ∧ op_security op0 = sec)
            ∧ (errs = errs0 ∨ errs = push_if_missing VALIDATION_ERROR errs0)
            ∧ paths st' = paths st ∧ openapi_json st' = openapi_json st)
    as Hfinish.
  { intros eo st4 [He Hs] Hp Hf.
    destruct (declareResponses_returns (name params) (responses params)
                eo.2 st4) as (op' & st5 & -> & Hp5 & Hf5 & Hs5).
    intros [= <- <- <-]. split; [exists op'; split; [done|congruence]|].
    split; [done|]. split; congruence. }
  destruct (requestSchemas params ≫= rs_body) as [body|].
  - destruct (addZodSchema _ body _ st3) as [[b|e] st4] eqn:Ha; [|done].
    destruct (addZodSchema_frame _ _ _ _ _ _ Ha) as [Hp4 Hf4].
    destruct b; unfold ret at 1.
    + apply Hfinish; [|congruence..].
      destruct H0 as [He Hs]. split; [|done]. simpl.
      destruct He as [->| ->]; [by right|]. right. apply push_if_missing_idem.
    + apply Hfinish; [done|congruence..].
  - unfold ret at 1. apply Hfinish; [done|congruence..].
Qed.

Lemma path_entry_set_path_eq p m op paths :
  path_entry (set_path p m op paths) p m = Some op.
Proof.
  unfold path_entry, set_path. rewrite lookup_insert_eq. simpl.
  apply lookup_insert_eq.
Qed.

Lemma path_entry_set_path_ne p m op paths p' m' :
  (p', m') ≠ (p, m) →
  path_entry (set_path p m op paths) p' m' = path_entry paths p' m'.
Proof.
  intros Hne. unfold path_entry, set_path.
  destruct (decide (p = p')) as [<-|Hp].
  - rewrite lookup_insert_eq. simpl.
    rewrite lookup_insert_ne by congruence.
    by destruct (paths !! p).
  - by rewrite lookup_insert_ne.
Qed.

Lemma addDocRoute_inv params st errs st' :
  addDocRoute params st = (Ret errs, st') →
  ∃ op st0,
    compileOperation params st = (Ret (op, errs), st0)
    ∧ schemas st' = schemas st0
    ∧ paths st'
      = set_path (PathSyntax.expressRouteToOpenApiRoute (route params))
          (method params) op (paths st)
    ∧ openapi_json st' = openapi_json st.
Proof.
  unfold addDocRoute, bind.
  destruct (compileOperation params st) as [[[op errs0]|e] st0] eqn:Hc; [|done].
  intros [= <- <-]. exists op, st0.
  apply compileOperation_inv in Hc as (_ & _ & Hp & Hf). simpl.
  by rewrite Hp, Hf.
Qed.

(** C7. A returning [addDocRoute] leaves the operation it compiled at the
    translated path and the method of the route, whatever was there before,
    and every other (path, method) entry of the path table as it was. *)
Theorem addDocRoute_path_table params st errs st' :
  addDocRoute params st = (Ret errs, st') →
  ∃ op st0,
    compileOperation params st = (Ret (op, errs), st0)
    ∧ path_entry (paths st')
        (PathSyntax.expressRouteToOpenApiRoute (route params)) (method params)
      = Some op
    ∧ ∀ p' m',
        (p', m')
        ≠ (PathSyntax.expressRouteToOpenApiRoute (route params), method params) →
        path_entry (paths st') p' m' = path_entry (paths st) p' m'.
Proof.
  intros (op & st0 & Hc & _ & Hp & _)%addDocRoute_inv.
  exists op, st0. rewrite Hp. split; [done|]. split.
  - apply path_entry_set_path_eq.
  - intros p' m' Hne. by apply path_entry_set_path_ne.
Qed.

Lemma compiled_entry params st errs st' :
  addDocRoute params st = (Ret errs, st') →
  ∃ op op0,
    path_entry (paths st')
      (PathSyntax.expressRouteToOpenApiRoute (route params)) (method params)
    = Some op
    ∧ op = declareErrors errs op0
    ∧ op_security op
      = (if decide (authenticatedUser params = none) then None
         else Some bearerAuth)
    ∧ (errs = (if decide (authenticatedUser params = none)
               then default [] (errors params)
               else push_if_missing UNAUTHORIZED (default [] (errors params)))
       ∨ errs = push_if_missing VALIDATION_ERROR
                  (if decide (authenticatedUser params = none)
                   then default [] (errors params)
                   else push_if_missing UNAUTHORIZED
                          (default [] (errors params)))).
Proof.
  intros (op & st0 & Hc & _ & Hp & _)%addDocRoute_inv.
  apply compileOperation_inv in Hc as ((op0 & -> & Hs) & He & _).
  exists (declareErrors errs op0), op0. rewrite Hp.
  split; [apply path_entry_set_path_eq|]. split; [done|].
  split; [|done].
  by destruct (declareErrors_frame errs op0) as (-> & _).
Qed.

Lemma push_if_missing_prefix e errors : errors `prefix_of` push_if_missing e errors.
Proof.
  unfold push_if_missing. destruct (decide (e ∈ errors)); [done|].
  by apply prefix_app_r.
Qed.

Lemma declared_errors_kept params st errs st' :
  addDocRoute params st = (Ret errs, st') →
  default [] (errors params) `prefix_of` errs.
Proof.
  intros (op & op0 & _ & _ & _ & He)%compiled_entry.
  destruct (decide (authenticatedUser params = none));
    destruct He as [->| ->];
    repeat (etrans; [|apply push_if_missing_prefix]); done.
Qed.

Lemma sole_resolving status errors err :
  err ∈ errors → statusOf err = status →
  (∀ e, e ∈ errors → statusOf e = status → e = err) →
  last_resolving status errors = Some err.
Proof.
  intros Hin Hs Hsole.
  destruct (last_resolving_elem err errors Hin) as [e He]. rewrite Hs in He.
  destruct (last_resolving_Some _ _ _ He) as [Hin' Hs'].
  by rewrite <-(Hsole e Hin' Hs').
Qed.

(** C1, as the code has it. For a route with [authenticatedUser] other than
    [none], the operation carries the bearer-token requirement;
    [UNAUTHORIZED] is in the error kinds, pushed behind the declared ones
    when it was not declared; and the response map has, at the status
    [UNAUTHORIZED] resolves to, the error response of the last kind of the
    list that resolves to that status.  That kind is [UNAUTHORIZED] when no
    other kind of the list resolves to the same status. *)
Theorem addDocRoute_authenticated params st errs st' :
  authenticatedUser params ≠ none →
  addDocRoute params st = (Ret errs, st') →
  ∃ op,
    path_entry (paths st')
      (PathSyntax.expressRouteToOpenApiRoute (route params)) (method params)
    = Some op
    ∧ op_security op = Some bearerAuth
    ∧ UNAUTHORIZED ∈ errs
    ∧ push_if_missing UNAUTHORIZED (default [] (errors params)) `prefix_of` errs
    ∧ (∃ e, last_resolving (statusOf UNAUTHORIZED) errs = Some e
            ∧ e ∈ errs ∧ statusOf e = statusOf UNAUTHORIZED
            ∧ op_responses op !! statusOf UNAUTHORIZED = Some (errorResponse e))
    ∧ ((∀ e, e ∈ errs → statusOf e = statusOf UNAUTHORIZED → e = UNAUTHORIZED) →
       op_responses op !! statusOf UNAUTHORIZED
       = Some (errorResponse UNAUTHORIZED)).
Proof.
  intros Hauth (op & op0 & Hentry & -> & Hsec & He)%compiled_entry.
  rewrite decide_False in Hsec by done. rewrite !decide_False in He by done.
  assert (push_if_missing UNAUTHORIZED (default [] (errors params))
            `prefix_of` errs) as Hpre.
  { destruct He as [->| ->]; [done|apply push_if_missing_prefix]. }
  assert (UNAUTHORIZED ∈ errs) as Hin.
  { destruct Hpre as [k ->]. apply elem_of_app. left.
    apply push_if_missing_elem. }
  exists (declareErrors errs op0). repeat split; try done.
  - destruct (last_resolving_elem _ _ Hin) as [e He'].
    exists e. destruct (last_resolving_Some _ _ _ He') as [? ?].
    repeat split; try done. by rewrite declareErrors_lookup, He'.
  - intros Hsole. rewrite declareErrors_lookup.
    by rewrite (sole_resolving _ _ UNAUTHORIZED Hin eq_refl Hsole).
Qed.

(** C6, as the code has it. For every kind of the accumulated error list
    (the declared kinds, then the ones pushed while compiling), the response
    map has an entry at the status the kind resolves to, 500 when the table
    has no entry for it; the entry is the error response of the last kind of
    the list that resolves to that status and references that kind's schema
    by name.  It is the kind's own response when no other kind of the list
    resolves to the same status. *)
Theorem addDocRoute_error_responses params st errs st' :
  addDocRoute params st = (Ret errs, st') →
  ∃ op,
    path_entry (paths st')
      (PathSyntax.expressRouteToOpenApiRoute (route params)) (method params)
    = Some op
    ∧ default [] (errors params) `prefix_of` errs
    ∧ ∀ err, err ∈ errs →
        (errorStatusMap !! err = None → statusOf err = 500%N)
        ∧ (∀ s, errorStatusMap !! err = Some s → statusOf err = s)
        ∧ (∃ e, last_resolving (statusOf err) errs = Some e
                ∧ e ∈ errs ∧ statusOf e = statusOf err
                ∧ op_responses op !! statusOf err = Some (errorResponse e)
                ∧ content (errorResponse e)
                  = Some (application_json, schemaRef e))
        ∧ ((∀ e, e ∈ errs → statusOf e = statusOf err → e = err) →
           op_responses op !! statusOf err = Some (errorResponse err)).
Proof.
  intros H. pose proof (declared_errors_kept _ _ _ _ H) as Hpre.
  apply compiled_entry in H as (op & op0 & Hentry & -> & _ & _).
  exists (declareErrors errs op0). split; [done|]. split; [done|].
  intros err Hin. unfold statusOf at 1 2.
  split; [by intros ->|]. split; [by intros s ->|]. split.
  - destruct (last_resolving_elem _ _ Hin) as [e He'].
    exists e. destruct (last_resolving_Some _ _ _ He') as [? ?].
    repeat split; try done. by rewrite declareErrors_lookup, He'.
  - intros Hsole. rewrite declareErrors_lookup.
    by rewrite (sole_resolving _ _ err Hin eq_refl Hsole).
Qed.

(** C10. When a route declares a response at a status and ends compilation
    with an error kind that resolves to the same status, the entry of the
    final operation at that status is an error response, the one of the last
    such kind of the list, whatever the declared response was. *)
Theorem addDocRoute_error_replaces_declared params st errs st' status decl err :
  addDocRoute params st = (Ret errs, st') →
  (status, decl) ∈ responses params →
  err ∈ errs →
  statusOf err = status →
  ∃ op e,
    path_entry (paths st')
      (PathSyntax.expressRouteToOpenApiRoute (route params)) (method params)
    = Some op
    ∧ last_resolving status errs = Some e
    ∧ e ∈ errs ∧ statusOf e = status
    ∧ op_responses op !! status = Some (errorResponse e)
    ∧ ((∀ e', e' ∈ errs → statusOf e' = status → e' = err) → e = err).
Proof.
  intros (op & op0 & Hentry & -> & _ & _)%compiled_entry _ Hin Hs.
  destruct (last_resolving_elem _ _ Hin) as [e He']. rewrite Hs in He'.
  destruct (last_resolving_Some _ _ _ He') as [? ?].
  exists (declareErrors errs op0), e. repeat split; try done.
  - by rewrite declareErrors_lookup, He'.
  - intros Hsole. by apply Hsole.
Qed.

(** ** When [addDocRoute] returns, and when it does not *)

(** The compiler returns whenever writing the file fields into the body
    schema does not raise; in particular for a route without file fields. *)
Lemma addDocRoute_returns params st :
  (∀ body comps,
     requestSchemas params ≫= rs_body = Some body →
     components (createSchema body) = Some comps →
     ∃ o, inject_fileFields (default [] (requestSchemas params ≫= rs_fileFields))
            (first_component comps) = Ret o) →
  ∃ errs st', addDocRoute params st = (Ret errs, st').
Proof.
  intros Hsafe. unfold addDocRoute, compileOperation, bind. cbv zeta.
  set (eo0 := if decide (authenticatedUser params = none) then _ else _).
  clearbody eo0.
  run_extractor st ps1 st1 Hp1 Hf1. run_extractor st1 ps2 st2 Hp2 Hf2.
  run_extractor st2 ps3 st3 Hp3 Hf3.
  set (eo3 := note_parameters ps3 _). clearbody eo3.
  destruct (requestSchemas params ≫= rs_body) as [body|].
  - unfold addZodSchema.
    destruct (components (createSchema body)) as [comps|] eqn:Hc.
    + destruct (Hsafe body comps eq_refl Hc) as [o ->]. unfold ret at 1.
      edestruct declareResponses_returns as (op' & st5 & -> & _).
      by eexists _, _.
    + unfold ret at 1.
      edestruct declareResponses_returns as (op' & st5 & -> & _).
      by eexists _, _.
  - unfold ret at 1.
    edestruct declareResponses_returns as (op' & st5 & -> & _).
    by eexists _, _.
Qed.

Lemma addDocRoute_returns_without_fileFields params st :
  default [] (requestSchemas params ≫= rs_fileFields) = [] →
  ∃ errs st', addDocRoute params st = (Ret errs, st').
Proof.
  intros Hff. apply addDocRoute_returns. intros body comps _ _.
  rewrite Hff. by eexists.
Qed.

(** A registration that fails drops its fragment and nothing else. *)
Lemma generateParamDocFromSchema_unregistered name sch loc optionalParams st :
  components (createSchema sch) = None →
  generateParamDocFromSchema name (Some sch) loc optionalParams st = (Ret [], st).
Proof.
  intros Hc. unfold generateParamDocFromSchema, bind.
  destruct (decide (name = "")); [done|].
  by rewrite addZodSchema_nil, Hc.
Qed.

Lemma declareResponses_unregistered name statusCode r sch rest op st :
  rd_schema r = Some sch →
  components (createSchema sch) = None →
  declareResponses name ((statusCode, r) :: rest) op st
  = declareResponses name rest op st.
Proof.
  intros Hs Hc. simpl. rewrite Hs. unfold bind.
  by rewrite addZodSchema_nil, Hc.
Qed.

(** C2, where the code departs from it. A route whose body schema converts
    to components, the first of which has no field map, and which carries at
    least one file field makes [addDocRoute] raise a TypeError: the route is
    not entered in the path table. *)
Theorem addDocRoute_raises_on_file_fields params st body comps f rest :
  requestSchemas params ≫= rs_body = Some body →
  components (createSchema body) = Some comps →
  requestSchemas params ≫= rs_fileFields = Some (f :: rest) →
  (∀ members props,
     first_component comps = JObj members →
     obj_get "properties" members ≠ Some (JObj props)) →
  ∃ st', addDocRoute params st = (Raise TypeError, st')
         ∧ paths st' = paths st.
Proof.
  intros Hb Hc Hff Hno. unfold addDocRoute, compileOperation, bind. cbv zeta.
  set (eo0 := if decide (authenticatedUser params = none) then _ else _).
  clearbody eo0.
  run_extractor st ps1 st1 Hp1 Hf1. run_extractor st1 ps2 st2 Hp2 Hf2.
  run_extractor st2 ps3 st3 Hp3 Hf3.
  rewrite Hb, Hff. unfold addZodSchema. rewrite Hc.
  change (default [] (Some (f :: rest))) with (f :: rest).
  rewrite (inject_fileFields_no_properties f rest _ Hno).
  exists st3. split; [done|congruence].
Qed.

(** ** Facts about the document assembler *)

Lemma registerAll_union l reg : registerAll l reg = registerAll l ∅ ∪ reg.
Proof.
  unfold registerAll. revert reg.
  induction l as [|[n sch] l IH]; intros reg; simpl.
  - by rewrite (left_id_L ∅ (∪)).
  - destruct (components (createSchema sch)) as [comps|]; [|apply IH].
    rewrite IH, (IH (<[n:=_]> ∅)).
    rewrite <-(assoc_L (∪)). f_equal.
    by rewrite insert_union_singleton_l, insert_empty.
Qed.

Lemma registerAll_idem l reg :
  registerAll l (registerAll l reg) = registerAll l reg.
Proof.
  rewrite (registerAll_union l (registerAll l reg)), (registerAll_union l reg).
  by rewrite (assoc_L (∪)), (idemp_L (∪)).
Qed.

Lemma registerAll_app l1 l2 reg :
  registerAll (l1 ++ l2) reg = registerAll l2 (registerAll l1 reg).
Proof. unfold registerAll. apply fold_left_app. Qed.

Lemma registerBaseSchemas_run bs st :
  registerBaseSchemas bs st
  = (Ret (),
     {| schemas := registerAll (map (λ b, (bs_name b, bs_schema b)) bs) (schemas st);
        paths := paths st; openapi_json := openapi_json st |}).
Proof.
  revert st. induction bs as [|b bs IH]; intros st; simpl.
  - by destruct st.
  - unfold bind. rewrite addZodSchema_nil.
    destruct (components (createSchema (bs_schema b))); by rewrite IH.
Qed.

Lemma forEach_errorName_run names st :
  forEach_errorName names st
  = (Ret (),
     {| schemas := registerAll (map (λ n, (n, customErrorSchema n)) names) (schemas st);
        paths := paths st; openapi_json := openapi_json st |}).
Proof.
  revert st. induction names as [|n names IH]; intros st; simpl.
  - by destruct st.
  - unfold bind. rewrite addZodSchema_nil.
    destruct (components (createSchema (customErrorSchema n))); by rewrite IH.
Qed.

Lemma buildOpenApiDoc_run st :
  let reg := registerAll globalSchemas (schemas st) in
  let doc := createDocument (builtInput (schemas st) (paths st)) in
  let registered :=
    {| schemas := reg; paths := paths st; openapi_json := openapi_json st |} in
  buildOpenApiDoc st
  = if decide (NODE_ENV = "development")
    then
      if write_fails (openapi_json st) doc then (Raise IOError, registered)
      else
        (Ret doc,
         {| schemas := reg; paths := paths st;
            openapi_json := Some (stringify doc) |})
    else (Ret doc, registered).
Proof.
  unfold buildOpenApiDoc, addErrorComponents, bind. simpl.
  rewrite registerBaseSchemas_run, forEach_errorName_run. simpl.
  unfold documentInput, builtInput, createOpenApiFile, globalSchemas. simpl.
  rewrite !registerAll_app.
  destruct (decide (NODE_ENV = "development")); [|done].
  by destruct (write_fails _ _).
Qed.

(** What a call that ends, either way, has done to the store. *)
Lemma buildOpenApiDoc_store st r st1 :
  buildOpenApiDoc st = (r, st1) →
  schemas st1 = registerAll globalSchemas (schemas st) ∧ paths st1 = paths st.
Proof.
  rewrite buildOpenApiDoc_run. simpl.
  destruct (decide _); [destruct (write_fails _ _)|]; by intros [= <- <-].
Qed.

(** The document of a call that returns. *)
Lemma buildOpenApiDoc_document st doc st1 :
  buildOpenApiDoc st = (Ret doc, st1) →
  doc = createDocument (builtInput (schemas st) (paths st)).
Proof.
  rewrite buildOpenApiDoc_run. simpl.
  destruct (decide _); [destruct (write_fails _ _)|]; by intros [= <- <-].
Qed.

(** C9. When [buildOpenApiDoc] returns and a second call right after it
    returns too, both return the same document, and it is [createDocument]
    applied to the path table as it was and to the registry with the shared
    schemas registered over it: the second call registers them again over
    themselves, which changes neither the registry nor the path table. *)
Theorem buildOpenApiDoc_twice st doc1 st1 doc2 st2 :
  buildOpenApiDoc st = (Ret doc1, st1) →
  buildOpenApiDoc st1 = (Ret doc2, st2) →
  doc2 = doc1
  ∧ doc1
    = createDocument
        {| di_openapi := "3.0.0";
           di_info := ("My API", "1.0.0");
           di_paths := paths st;
           di_schemas := registerAll globalSchemas (schemas st);
           di_securitySchemes :=
             [("bearerAuth",
               [("type", "http"); ("scheme", "bearer");
                ("bearerFormat", "JWT")])] |}
  ∧ schemas st1 = registerAll globalSchemas (schemas st)
  ∧ paths st1 = paths st
  ∧ schemas st2 = registerAll globalSchemas (schemas st1)
  ∧ schemas st2 = schemas st1
  ∧ paths st2 = paths st1.
Proof.
  intros H1 H2.
  pose proof (buildOpenApiDoc_document _ _ _ H1) as Hd1.
  pose proof (buildOpenApiDoc_document _ _ _ H2) as Hd2.
  destruct (buildOpenApiDoc_store _ _ _ H1) as [Hs1 Hp1].
  destruct (buildOpenApiDoc_store _ _ _ H2) as [Hs2 Hp2].
  assert (Hidem : registerAll globalSchemas (schemas st1) = schemas st1).
  { rewrite Hs1. apply registerAll_idem. }
  split_and!; try done.
  - rewrite Hd2, Hd1. unfold builtInput. by rewrite Hidem, Hs1, Hp1.
  - by rewrite Hs2.
Qed.

(** ** More about the schema registry *)

Lemma addZodSchema_registry name sch fileFields st r st' :
  addZodSchema name sch fileFields st = (r, st') →
  (∀ k, k ≠ name → schemas st' !! k = schemas st !! k)
  ∧ (∀ k, is_Some (schemas st !! k) → is_Some (schemas st' !! k)).
Proof.
  unfold addZodSchema.
  destruct (components (createSchema sch)) as [comps|];
    [destruct (inject_fileFields _ _)|]; intros [= <- <-]; simpl;
    try done.
  split.
  - intros k Hk. by rewrite lookup_insert_ne.
  - intros k Hk. destruct (decide (name = k)) as [<-|Hne].
    + rewrite lookup_insert_eq. by eexists.
    + by rewrite lookup_insert_ne.
Qed.

Lemma inject_fileFields_raises fileFields objectSchema e :
  inject_fileFields fileFields objectSchema = Raise e →
  fileFields ≠ []
  ∧ ∀ members props,
      objectSchema = JObj members →
      obj_get "properties" members ≠ Some (JObj props).
Proof.
  intros H. split; [by intros ->|].
  intros members props -> Hp.
  by rewrite (inject_fileFields_properties _ _ _ Hp) in H.
Qed.

Lemma addZodSchema_raise_keeps_store name sch fileFields st e st' :
  addZodSchema name sch fileFields st = (Raise e, st') → st' = st.
Proof.
  unfold addZodSchema.
  destruct (components (createSchema sch)) as [comps|];
    [destruct (inject_fileFields _ _)|]; by intros [= <-].
Qed.

(** X1. [addZodSchema] raises in one case only: the conversion gives
    components, there is at least one file field, and the first component
    has no field map.  The store is then left as it was. *)
Theorem addZodSchema_raises_iff name sch fileFields st :
  ((∃ e st', addZodSchema name sch fileFields st = (Raise e, st'))
   ↔ ∃ comps,
       components (createSchema sch) = Some comps
       ∧ fileFields ≠ []
       ∧ ∀ members props,
           first_component comps = JObj members →
           obj_get "properties" members ≠ Some (JObj props))
  ∧ ∀ e st', addZodSchema name sch fileFields st = (Raise e, st') → st' = st.
Proof.
  split; [|apply addZodSchema_raise_keeps_store].
  unfold addZodSchema. split.
  - intros (e & st' & H).
    destruct (components (createSchema sch)) as [comps|]; [|done].
    destruct (inject_fileFields fileFields (first_component comps)) as [o|e']
      eqn:Hi; [done|].
    exists comps. split; [done|]. by apply inject_fileFields_raises in Hi.
  - intros (comps & -> & Hne & Hno).
    destruct fileFields as [|f rest]; [done|].
    rewrite (inject_fileFields_no_properties f rest _ Hno). by eexists _, _.
Qed.

Lemma lastFileField_snoc k fileFields f :
  lastFileField k (fileFields ++ [f])
  = if decide (ff_name f = k) then Some f else lastFileField k fileFields.
Proof.
  unfold lastFileField. rewrite filter_app, filter_cons, filter_nil.
  destruct (decide (ff_name f = k)).
  - by rewrite last_snoc.
  - by rewrite app_nil_r.
Qed.

Lemma injected_properties_lookup fileFields props k :
  obj_get k (injected_properties fileFields props)
  = match lastFileField k fileFields with
    | Some f => Some (fileFieldSchema f)
    | None => obj_get k props
    end.
Proof.
  induction fileFields as [|f fileFields IH] using rev_ind; [done|].
  unfold injected_properties. rewrite fold_left_app. simpl.
  fold (injected_properties fileFields props). rewrite lastFileField_snoc.
  destruct (decide (ff_name f = k)) as [<-|Hne].
  - apply obj_get_set_eq.
  - by rewrite obj_get_set_ne.
Qed.

(** X2. After a registration with file fields that succeeds on an object
    schema, the stored entry is that schema with its field map changed as
    follows: each name of a file field holds the descriptor of the last file
    field of that name, every other field is as converted; the members of
    the schema other than [properties] are as converted. *)
Theorem addZodSchema_injects name sch fileFields st st' comps members props :
  addZodSchema name sch fileFields st = (Ret true, st') →
  components (createSchema sch) = Some comps →
  first_component comps = JObj members →
  obj_get "properties" members = Some (JObj props) →
  ∃ members' props',
    schemas st' !! name = Some (JObj members')
    ∧ obj_get "properties" members' = Some (JObj props')
    ∧ (∀ k, k ≠ "properties" → obj_get k members' = obj_get k members)
    ∧ (∀ k f, lastFileField k fileFields = Some f →
              obj_get k props' = Some (fileFieldSchema f))
    ∧ (∀ k, (∀ f, f ∈ fileFields → ff_name f ≠ k) →
            obj_get k props' = obj_get k props).
Proof.
  intros H Hc Hm Hp.
  apply addZodSchema_inv in H as [(? & _)|(_ & comps' & o & Hc' & Hi & ->)];
    [done|].
  rewrite Hc in Hc'. injection Hc' as <-. rewrite Hm in Hi.
  rewrite (inject_fileFields_properties _ _ _ Hp) in Hi. injection Hi as <-.
  eexists _, _. simpl. split; [apply lookup_insert_eq|].
  split; [apply obj_get_set_eq|]. split.
  - intros k Hk. by apply obj_get_set_ne.
  - split.
    + intros k f Hl. by rewrite injected_properties_lookup, Hl.
    + intros k Hk. rewrite injected_properties_lookup.
      destruct (lastFileField k fileFields) as [f|] eqn:Hl; [|done].
      apply last_Some_elem_of, list_elem_of_filter in Hl as [Hn Hin].
      by destruct (Hk f Hin).
Qed.

(** ** More about the parameter extractor *)

(** X3. For an object schema that registers under a non-empty name the
    extractor returns one descriptor per field, in the order of the shape:
    named after the field, located at [loc], carrying the converted schema
    of the field, and required exactly when the field is not listed as
    optional.  The registry gains the converted object under the name. *)
Theorem generateParamDocFromSchema_object
    name shape meta loc optionalParams st comps :
  name ≠ "" →
  components (createSchema (ZodObject shape meta)) = Some comps →
  ∃ ps st',
    generateParamDocFromSchema name (Some (ZodObject shape meta)) loc
      optionalParams st = (Ret ps, st')
    ∧ p_name <$> ps = shape.*1
    ∧ p_schema <$> ps = (λ kv, createSchema kv.2) <$> shape
    ∧ Forall (λ p, p_in p = loc) ps
    ∧ Forall (λ p, p_required p = false ↔ p_name p ∈ optionalParams) ps
    ∧ schemas st' = <[name := first_component comps]> (schemas st).
Proof.
  intros Hname Hc. unfold generateParamDocFromSchema, bind.
  rewrite decide_False by done. rewrite addZodSchema_nil, Hc. simpl.
  eexists _, _. split; [reflexivity|]. simpl.
  split; [by rewrite <-list_fmap_compose|].
  split; [by rewrite <-list_fmap_compose|].
  split.
  - apply Forall_fmap, Forall_true. done.
  - split; [|done]. apply Forall_fmap, Forall_forall. intros [k v] _. simpl.
    destruct (decide (k ∈ optionalParams)); naive_solver.
Qed.

(** X4. When the extractor returns no parameter, and what it does to the
    store.  It always returns.  It returns no parameter exactly when the
    name is empty, no schema is given, the conversion has no [components]
    member, or the schema is not an object with at least one field.  The
    store is left as it was when the name is empty, no schema is given, or
    the [components] member is absent; in every other case the registry
    gains, under the name, the first component of the conversion, which is
    [undefined] when the components object is empty: the parameters of an
    object schema are then returned all the same. *)
Theorem generateParamDocFromSchema_nothing name sch loc optionalParams st :
  ∃ ps st',
    generateParamDocFromSchema name sch loc optionalParams st = (Ret ps, st')
    ∧ (ps = [] ↔
       name = "" ∨ sch = None
       ∨ ∃ z, sch = Some z
              ∧ (components (createSchema z) = None
                 ∨ ∀ shape meta, z = ZodObject shape meta → shape = []))
    ∧ (name = "" ∨ sch = None
       ∨ (∃ z, sch = Some z ∧ components (createSchema z) = None) →
       st' = st)
    ∧ (∀ z comps,
         name ≠ "" → sch = Some z →
         components (createSchema z) = Some comps →
         st' = {| schemas := <[name := first_component comps]> (schemas st);
                  paths := paths st; openapi_json := openapi_json st |})
    ∧ (∀ shape meta,
         name ≠ "" → sch = Some (ZodObject shape meta) →
         components (createSchema (ZodObject shape meta)) = Some [] →
         schemas st' !! name = Some JUndefined
         ∧ ps = map (λ kv : string * ZodTypeAny,
                       {| p_name := kv.1;
                          p_in := loc;
                          p_required :=
                            if decide (kv.1 ∈ optionalParams) then false
                            else true;
                          p_schema := createSchema kv.2 |})
                    shape).
Proof.
  unfold generateParamDocFromSchema.
  destruct (decide (name = "")) as [->|Hname].
  { eexists _, _. split; [done|]. split; [by split; [left|]|].
    by repeat split. }
  destruct sch as [z|].
  2: { eexists _, _. split; [done|]. split; [by split; [right; left|]|].
       by repeat split. }
  unfold bind. rewrite addZodSchema_nil.
  destruct (components (createSchema z)) as [comps|] eqn:Hc; simpl.
  - destruct z as [t m|e m|shape m]; eexists _, _; (split; [reflexivity|]).
    + split; [split; [|done]; intros _; right; right; eexists; split; [done|];
              by right|].
      split; [intros [?|[?|(z & [= <-] & ?)]]; congruence|].
      split; [|by intros].
      intros z comps' _ [= <-] Hc'. rewrite Hc in Hc'. by injection Hc' as <-.
    + split; [split; [|done]; intros _; right; right; eexists; split; [done|];
              by right|].
      split; [intros [?|[?|(z & [= <-] & ?)]]; congruence|].
      split; [|by intros].
      intros z comps' _ [= <-] Hc'. rewrite Hc in Hc'. by injection Hc' as <-.
    + split.
      { split.
        - intros Hnil. apply fmap_nil_inv in Hnil as ->.
          right; right. eexists. split; [done|]. right. by intros ? ? [= <- _].
        - intros [?|[?|(z & [= <-] & [?|Hz])]]; try congruence.
          by rewrite (Hz shape m eq_refl). }
      split; [intros [?|[?|(z & [= <-] & ?)]]; congruence|].
      split.
      { intros z comps' _ [= <-] Hc'. rewrite Hc in Hc'.
        by injection Hc' as <-. }
      intros shape' meta' _ [= <- <-] Hc'. rewrite Hc in Hc'.
      injection Hc' as ->. simpl. by rewrite lookup_insert_eq.
  - eexists _, _. split; [reflexivity|].
    split; [split; [|done]; intros _; right; right; eexists; split; [done|];
            by left|].
    split; [done|]. split; [intros z' comps _ [= <-]; congruence|].
    intros shape meta _ [= ->]. congruence.
Qed.

(** X5. A schema that is not an object but registers gives no parameter,
    yet its converted form is entered in the registry under the name. *)
Theorem generateParamDocFromSchema_not_object
    name sch loc optionalParams st comps :
  name ≠ "" →
  (∀ shape meta, sch ≠ ZodObject shape meta) →
  components (createSchema sch) = Some comps →
  ∃ st',
    generateParamDocFromSchema name (Some sch) loc optionalParams st
    = (Ret [], st')
    ∧ schemas st' !! name = Some (first_component comps).
Proof.
  intros Hname Hno Hc. unfold generateParamDocFromSchema, bind.
  rewrite decide_False by done. rewrite addZodSchema_nil, Hc. simpl.
  destruct sch as [t m|e m|shape m]; [| |by destruct (Hno shape m)];
    (eexists; split; [reflexivity|apply lookup_insert_eq]).
Qed.

Lemma generateParamDocFromSchema_registry name sch loc optionalParams st r st' :
  generateParamDocFromSchema name sch loc optionalParams st = (r, st') →
  (∀ k, k ≠ name → schemas st' !! k = schemas st !! k)
  ∧ (∀ k, is_Some (schemas st !! k) → is_Some (schemas st' !! k)).
Proof.
  unfold generateParamDocFromSchema.
  destruct (decide (name = "")); [by intros [= <- <-]|].
  destruct sch as [sch|]; [|by intros [= <- <-]].
  unfold bind.
  destruct (addZodSchema name sch [] st) as [[b|e] st1] eqn:Ha.
  - pose proof (addZodSchema_registry _ _ _ _ _ _ Ha) as Hreg.
    destruct b; simpl; [destruct sch|]; by intros [= <- <-].
  - pose proof (addZodSchema_registry _ _ _ _ _ _ Ha) as Hreg.
    by intros [= <- <-].
Qed.

Lemma generateParamDocFromSchema_in name sch loc optionalParams st ps st' :
  generateParamDocFromSchema name sch loc optionalParams st = (Ret ps, st') →
  Forall (λ p, p_in p = loc) ps.
Proof.
  unfold generateParamDocFromSchema.
  destruct (decide (name = "")); [by intros [= <- <-]|].
  destruct sch as [sch|]; [|by intros [= <- <-]].
  unfold bind. rewrite addZodSchema_nil.
  destruct (components (createSchema sch)); simpl; [|by intros [= <- <-]].
  destruct sch; intros [= <- <-]; try done.
  by apply Forall_fmap, Forall_true.
Qed.

(** ** More about the operation compiler *)

(** One round of the loop over the declared responses. *)
Lemma declareResponses_cons name statusCode r rest op st :
  declareResponses name ((statusCode, r) :: rest) op st
  = declareResponses name rest
      (match responseFor name statusCode r with
       | Some x => set_response statusCode x op
       | None => op
       end)
      (match rd_schema r with
       | Some sch =>
           (addZodSchema (name +:+ ":response" +:+ pretty statusCode) sch [] st).2
       | None => st
       end).
Proof.
  simpl. unfold responseFor.
  destruct (rd_schema r) as [sch|]; [|done].
  unfold bind. rewrite addZodSchema_nil.
  by destruct (components (createSchema sch)).
Qed.

Lemma declareResponses_frame name entries op st opD st' :
  declareResponses name entries op st = (Ret opD, st') →
  op_summary opD = op_summary op ∧ op_parameters opD = op_parameters op
  ∧ op_tags opD = op_tags op ∧ op_security opD = op_security op
  ∧ op_requestBody opD = op_requestBody op.
Proof.
  revert op st. induction entries as [|[statusCode r] rest IH]; intros op st.
  - by intros [= <- <-].
  - rewrite declareResponses_cons. intros (?&?&?&?&?)%IH.
    by destruct (responseFor name statusCode r).
Qed.

Lemma declareResponses_registry name entries op st opD st' :
  declareResponses name entries op st = (Ret opD, st') →
  (∀ k, k ∉ map (λ e : N * ResponseDecl, name +:+ ":response" +:+ pretty e.1)
              entries →
        schemas st' !! k = schemas st !! k)
  ∧ (∀ k, is_Some (schemas st !! k) → is_Some (schemas st' !! k)).
Proof.
  revert op st. induction entries as [|[statusCode r] rest IH]; intros op st.
  - by intros [= <- <-].
  - rewrite declareResponses_cons. intros [IH1 IH2]%IH.
    assert ((∀ k, k ≠ name +:+ ":response" +:+ pretty statusCode →
               schemas (match rd_schema r with
                        | Some sch =>
                            (addZodSchema
                               (name +:+ ":response" +:+ pretty statusCode)
                               sch [] st).2
                        | None => st
                        end) !! k = schemas st !! k)
            ∧ (∀ k, is_Some (schemas st !! k) →
                 is_Some (schemas (match rd_schema r with
                        | Some sch =>
                            (addZodSchema
                               (name +:+ ":response" +:+ pretty statusCode)
                               sch [] st).2
                        | None => st
                        end) !! k))) as [H1 H2].
    { destruct (rd_schema r) as [sch|]; [|done].
      destruct (addZodSchema _ sch [] st) as [r0 st0] eqn:Ha.
      by apply addZodSchema_registry in Ha. }
    split.
    + intros k Hk. simpl in Hk. apply not_elem_of_cons in Hk as [Hk1 Hk2].
      rewrite IH1 by done. by apply H1.
    + intros k Hk. by apply IH2, H2.
Qed.

(** The entry the loop leaves at a status, when the status codes of the
    declared responses are pairwise distinct, as the keys of a record are. *)
Lemma declareResponses_lookup name entries op st opD st' :
  declareResponses name entries op st = (Ret opD, st') →
  NoDup entries.*1 →
  (∀ status, status ∉ entries.*1 →
     op_responses opD !! status = op_responses op !! status)
  ∧ (∀ status r, (status, r) ∈ entries →
       op_responses opD !! status
       = match responseFor name status r with
         | Some x => Some x
         | None => op_responses op !! status
         end).
Proof.
  revert op st. induction entries as [|[statusCode r] rest IH]; intros op st.
  - intros [= <- <-] _. split; [done|]. intros ? ? []%elem_of_nil.
  - rewrite declareResponses_cons. simpl.
    intros H [Hnotin Hnd]%NoDup_cons.
    destruct (IH _ _ H Hnd) as [IH1 IH2]. split.
    + intros status [Hne Hs]%not_elem_of_cons. rewrite IH1 by done.
      destruct (responseFor name statusCode r); [|done].
      simpl. by rewrite lookup_insert_ne.
    + intros status r' [[= -> ->]|Hin]%elem_of_cons.
      * rewrite IH1 by done.
        destruct (responseFor name statusCode r); [|done].
        simpl. apply lookup_insert_eq.
      * rewrite (IH2 _ _ Hin).
        destruct (responseFor name status r') as [x|]; [done|].
        assert (statusCode ≠ status) as Hne.
        { intros ->. apply Hnotin.
          apply list_elem_of_fmap. by exists (status, r'). }
        destruct (responseFor name statusCode r); [|done].
        simpl. by rewrite lookup_insert_ne.
Qed.

Lemma note_parameters_shape params ps acc validated :
  note_parameters ps
    (errorsBeforeResponses params validated,
     operationBeforeResponses params acc None)
  = (errorsBeforeResponses params
       (validated || match ps with [] => false | _ => true end),
     operationBeforeResponses params (acc ++ ps) None).
Proof.
  destruct ps as [|p ps]; simpl.
  - by rewrite orb_false_r, app_nil_r.
  - rewrite orb_true_r. f_equal. unfold errorsBeforeResponses.
    destruct validated; [apply push_if_missing_idem|done].
Qed.

Lemma nonempty_app3 {A} (l1 l2 l3 : list A) :
  (match l1 with [] => false | _ => true end
   || match l2 with [] => false | _ => true end
   || match l3 with [] => false | _ => true end)
  = match (l1 ++ l2 ++ l3)%list with [] => false | _ => true end.
Proof. by destruct l1, l2, l3. Qed.

(** As [run_extractor], keeping the equation of the call as [H]. *)
Ltac run_extractor_eq st ps st' H :=
  match goal with
  | |- context [generateParamDocFromSchema ?n ?sch ?loc ?opt st] =>
      destruct (generateParamDocFromSchema_returns n sch loc opt st)
        as (ps & st' & H & _ & _);
      rewrite H
  end.

(** A returning [compileOperation], stage by stage. *)
Lemma compileOperation_shape params st op errs st' :
  compileOperation params st = (Ret (op, errs), st') →
  ∃ ps1 st1 ps2 st2 ps3 st3 rb st4 opD,
    generateParamDocFromSchema (name params +:+ ":params")
      (requestSchemas params ≫= rs_params) path
      (default [] (requestSchemas params ≫= rs_optionalParams)) st
    = (Ret ps1, st1)
    ∧ generateParamDocFromSchema (name params +:+ ":query")
        (requestSchemas params ≫= rs_query) query
        (default [] (requestSchemas params ≫= rs_optionalParams)) st1
      = (Ret ps2, st2)
    ∧ generateParamDocFromSchema (name params +:+ ":cookies")
        (requestSchemas params ≫= rs_cookies) cookie
        (default [] (requestSchemas params ≫= rs_optionalParams)) st2
      = (Ret ps3, st3)
    ∧ match requestSchemas params ≫= rs_body with
      | Some body =>
          ∃ b : bool,
            addZodSchema (name params +:+ ":body") body
              (default [] (requestSchemas params ≫= rs_fileFields)) st3
            = (Ret b, st4)
            ∧ rb = if b then Some (requestBodyOf params) else None
      | None => st4 = st3 ∧ rb = None
      end
    ∧ declareResponses (name params) (responses params)
        (operationBeforeResponses params (ps1 ++ ps2 ++ ps3) rb) st4
      = (Ret opD, st')
    ∧ errs = errorsBeforeResponses params
               (match (ps1 ++ ps2 ++ ps3)%list with [] => false | _ => true end
                || match rb with Some _ => true | None => false end)
    ∧ op = declareErrors errs opD.
Proof.
  unfold compileOperation. cbv zeta.
  set (eo0 := if decide (authenticatedUser params = none) then _ else _).
  assert (eo0 = (errorsBeforeResponses params false,
                 operationBeforeResponses params [] None)) as ->.
  { subst eo0. unfold errorsBeforeResponses, operationBeforeResponses.
    by destruct (decide (authenticatedUser params = none)). }
  unfold bind.
  run_extractor_eq st ps1 st1 H1. run_extractor_eq st1 ps2 st2 H2.
  run_extractor_eq st2 ps3 st3 H3.
  rewrite !note_parameters_shape. simpl app. rewrite <-app_assoc.
  rewrite orb_false_l, nonempty_app3.
  intros H. exists ps1, st1, ps2, st2, ps3, st3.
  destruct (requestSchemas params ≫= rs_body) as [body|].
  - destruct (addZodSchema _ body _ st3) as [[b|e] st4] eqn:Ha; [|done].
    destruct b; unfold ret at 1 in H; simpl in H.
    + destruct (declareResponses _ _ _ st4) as [[opD|e] st5] eqn:Hd; [|done].
      injection H as <- <- <-.
      exists (Some (requestBodyOf params)), st4, opD.
      rewrite orb_true_r.
      assert (push_if_missing VALIDATION_ERROR
                (errorsBeforeResponses params
                   match (ps1 ++ ps2 ++ ps3)%list with
                   | [] => false
                   | _ => true
                   end)
              = errorsBeforeResponses params true) as ->.
      { unfold errorsBeforeResponses.
        destruct (ps1 ++ ps2 ++ ps3)%list; [done|apply push_if_missing_idem]. }
      repeat split; try done. by exists true.
    + destruct (declareResponses _ _ _ st4) as [[opD|e] st5] eqn:Hd; [|done].
      injection H as <- <- <-. exists None, st4, opD.
      rewrite orb_false_r. repeat split; try done. by exists false.
  - unfold ret at 1 in H.
    destruct (declareResponses _ _ _ st3) as [[opD|e] st5] eqn:Hd; [|done].
    injection H as <- <- <-. exists None, st3, opD.
    rewrite orb_false_r. by repeat split.
Qed.

Lemma generateParamDocFromSchema_no_schema name loc optionalParams st :
  generateParamDocFromSchema name None loc optionalParams st = (Ret [], st).
Proof.
  unfold generateParamDocFromSchema. by destruct (decide (name = "")).
Qed.

(** The parameters the extractor returns do not depend on the store. *)
Lemma generateParamDocFromSchema_result name sch loc optionalParams st st0 :
  (generateParamDocFromSchema name sch loc optionalParams st).1
  = (generateParamDocFromSchema name sch loc optionalParams st0).1.
Proof.
  unfold generateParamDocFromSchema.
  destruct (decide (name = "")); [done|].
  destruct sch as [sch|]; [|done].
  unfold bind. rewrite !addZodSchema_nil.
  destruct (components (createSchema sch)); simpl; [by destruct sch|done].
Qed.

Lemma addDocRoute_shape params st errs st' :
  addDocRoute params st = (Ret errs, st') →
  ∃ op st0,
    compileOperation params st = (Ret (op, errs), st0)
    ∧ schemas st' = schemas st0
    ∧ path_entry (paths st')
        (PathSyntax.expressRouteToOpenApiRoute (route params)) (method params)
      = Some op.
Proof.
  intros (op & st0 & Hc & Hs & Hp & _)%addDocRoute_inv.
  exists op, st0. rewrite Hp. split; [done|]. split; [done|].
  apply path_entry_set_path_eq.
Qed.

(** X6. A route without authentication and without request schemas
    compiles, and to an operation with no parameter, no request body and no
    security requirement; its error kinds are the declared ones, none added. *)
Theorem addDocRoute_public_plain params st :
  authenticatedUser params = none →
  requestSchemas params = None →
  ∃ st' op,
    addDocRoute params st = (Ret (default [] (errors params)), st')
    ∧ path_entry (paths st')
        (PathSyntax.expressRouteToOpenApiRoute (route params)) (method params)
      = Some op
    ∧ op_parameters op = []
    ∧ op_requestBody op = None
    ∧ op_security op = None.
Proof.
  intros Hauth Hrs.
  destruct (addDocRoute_returns_without_fileFields params st)
    as (errs & st' & H); [by rewrite Hrs|].
  destruct (addDocRoute_shape _ _ _ _ H) as (op & st0 & Hc & _ & Hentry).
  apply compileOperation_shape in Hc
    as (ps1 & st1 & ps2 & st2 & ps3 & st3 & rb & st4 & opD
        & H1 & H2 & H3 & Hb & Hd & He & Hop).
  rewrite Hrs in H1, H2, H3, Hb. simpl in H1, H2, H3, Hb.
  rewrite generateParamDocFromSchema_no_schema in H1, H2, H3.
  injection H1 as <- <-. injection H2 as <- <-. injection H3 as <- <-.
  destruct Hb as [-> ->]. simpl in He.
  unfold errorsBeforeResponses in He. rewrite decide_True in He by done.
  subst errs. exists st', op. split; [done|]. split; [done|].
  apply declareResponses_frame in Hd as (_ & Hps & _ & Hsec & Hrb).
  destruct (declareErrors_frame (default [] (errors params)) opD)
    as (Hsec' & Hps' & Hrb').
  rewrite Hop, Hsec', Hps', Hrb', Hps, Hsec, Hrb. simpl.
  by rewrite decide_True.
Qed.

(** X7. [VALIDATION_ERROR] is among the error kinds of every compiled
    operation that has a parameter or a request body; for an operation with
    neither, the kinds are the declared ones, with [UNAUTHORIZED] pushed if
    missing when the route is authenticated, and nothing else. *)
Theorem addDocRoute_validation_kind params st errs st' :
  addDocRoute params st = (Ret errs, st') →
  ∃ op,
    path_entry (paths st')
      (PathSyntax.expressRouteToOpenApiRoute (route params)) (method params)
    = Some op
    ∧ (op_parameters op ≠ [] ∨ is_Some (op_requestBody op) →
       VALIDATION_ERROR ∈ errs)
    ∧ (op_parameters op = [] → op_requestBody op = None →
       errs = if decide (authenticatedUser params = none)
              then default [] (errors params)
              else push_if_missing UNAUTHORIZED (default [] (errors params))).
Proof.
  intros (op & st0 & Hc & _ & Hentry)%addDocRoute_shape.
  apply compileOperation_shape in Hc
    as (ps1 & st1 & ps2 & st2 & ps3 & st3 & rb & st4 & opD
        & _ & _ & _ & _ & Hd & He & Hop).
  exists op. split; [done|].
  apply declareResponses_frame in Hd as (_ & Hps & _ & _ & Hrb).
  destruct (declareErrors_frame errs opD) as (_ & Hps' & Hrb').
  rewrite Hop, Hps', Hrb', Hps, Hrb. simpl. split.
  - intros Hsome.
    assert ((match (ps1 ++ ps2 ++ ps3)%list with [] => false | _ => true end
             || match rb with Some _ => true | None => false end) = true)
      as Hv.
    { destruct Hsome as [Hne|[x ->]]; [|by rewrite orb_true_r].
      by destruct (ps1 ++ ps2 ++ ps3)%list. }
    rewrite Hv in He. rewrite He. unfold errorsBeforeResponses.
    apply push_if_missing_elem.
  - intros Hnil ->. by rewrite Hnil in He.
Qed.

(** X8. The compiler adds no error kind other than [UNAUTHORIZED] and
    [VALIDATION_ERROR], at most one of each: a declared list without
    repetition stays without repetition, and the list grows by at most
    two. *)
Theorem addDocRoute_error_kinds_bounded params st errs st' :
  addDocRoute params st = (Ret errs, st') →
  (∀ e, e ∈ errs →
        e ∈ default [] (errors params)
        ∨ (e = UNAUTHORIZED ∧ authenticatedUser params ≠ none)
        ∨ e = VALIDATION_ERROR)
  ∧ (NoDup (default [] (errors params)) → NoDup errs)
  ∧ (List.length errs ≤ List.length (default [] (errors params)) + 2)%nat.
Proof.
  intros (op & op0 & _ & _ & _ & He)%compiled_entry.
  assert (∀ x l, (∀ e, e ∈ push_if_missing x l → e ∈ l ∨ e = x)
                 ∧ (NoDup l → NoDup (push_if_missing x l))
                 ∧ (List.length (push_if_missing x l) ≤ List.length l + 1)%nat)
    as Hpush.
  { intros x l. unfold push_if_missing.
    destruct (decide (x ∈ l)) as [Hin|Hnin].
    - split; [auto|]. split; [done|lia].
    - split; [|split].
      + intros e [?|Hx%list_elem_of_singleton]%elem_of_app; auto.
      + intros Hnd. apply NoDup_app. split; [done|].
        split; [|apply NoDup_singleton].
        intros e He' ->%list_elem_of_singleton. done.
      + rewrite length_app. simpl. lia. }
  set (declared := default [] (errors params)) in *.
  destruct (decide (authenticatedUser params = none)) as [Hnone|Hauth].
  - destruct He as [->| ->].
    + split; [auto|]. split; [done|lia].
    + destruct (Hpush VALIDATION_ERROR declared) as (H1 & H2 & H3).
      split; [|split; [done|lia]].
      intros e [?| ->]%H1; auto.
  - destruct (Hpush UNAUTHORIZED declared) as (H1 & H2 & H3).
    destruct He as [->| ->].
    + split; [|split; [done|lia]].
      intros e [?| ->]%H1; auto.
    + destruct (Hpush VALIDATION_ERROR (push_if_missing UNAUTHORIZED declared))
        as (H1' & H2' & H3').
      split; [|split; [auto|lia]].
      intros e [[?| ->]%H1| ->]%H1'; auto.
Qed.

(** X9. The parameters of a compiled operation are those the extractor
    gives for the path schema, then those for the query schema, then those
    for the cookie schema, each group located accordingly. *)
Theorem addDocRoute_parameter_order params st errs st' :
  addDocRoute params st = (Ret errs, st') →
  ∃ op ps1 ps2 ps3,
    path_entry (paths st')
      (PathSyntax.expressRouteToOpenApiRoute (route params)) (method params)
    = Some op
    ∧ op_parameters op = (ps1 ++ ps2 ++ ps3)%list
    ∧ (generateParamDocFromSchema (name params +:+ ":params")
         (requestSchemas params ≫= rs_params) path
         (default [] (requestSchemas params ≫= rs_optionalParams)) st).1
      = Ret ps1
    ∧ (generateParamDocFromSchema (name params +:+ ":query")
         (requestSchemas params ≫= rs_query) query
         (default [] (requestSchemas params ≫= rs_optionalParams)) st).1
      = Ret ps2
    ∧ (generateParamDocFromSchema (name params +:+ ":cookies")
         (requestSchemas params ≫= rs_cookies) cookie
         (default [] (requestSchemas params ≫= rs_optionalParams)) st).1
      = Ret ps3
    ∧ Forall (λ p, p_in p = path) ps1
    ∧ Forall (λ p, p_in p = query) ps2
    ∧ Forall (λ p, p_in p = cookie) ps3.
Proof.
  intros (op & st0 & Hc & _ & Hentry)%addDocRoute_shape.
  apply compileOperation_shape in Hc
    as (ps1 & st1 & ps2 & st2 & ps3 & st3 & rb & st4 & opD
        & H1 & H2 & H3 & _ & Hd & _ & Hop).
  exists op, ps1, ps2, ps3. split; [done|].
  apply declareResponses_frame in Hd as (_ & Hps & _).
  destruct (declareErrors_frame errs opD) as (_ & Hps' & _).
  split; [by rewrite Hop, Hps', Hps|].
  split; [by rewrite H1|].
  split; [by rewrite (generateParamDocFromSchema_result _ _ _ _ st st1), H2|].
  split; [by rewrite (generateParamDocFromSchema_result _ _ _ _ st st2), H3|].
  repeat split; eapply generateParamDocFromSchema_in; eassumption.
Qed.

(** Registry names of one route differ when their suffixes do. *)
Lemma route_names_ne (name a b : string) : a ≠ b → name +:+ a ≠ name +:+ b.
Proof. intros Hab Heq. by apply Hab, (inj (String.append name)). Qed.

Lemma response_name_inj (name : string) (s1 s2 : N) :
  name +:+ ":response" +:+ pretty s1 = name +:+ ":response" +:+ pretty s2 →
  s1 = s2.
Proof.
  intros H. apply (inj (String.append name)) in H.
  apply (inj (String.append ":response")) in H. by apply (inj pretty).
Qed.

Lemma body_not_response (name : string) (entries : list (N * ResponseDecl)) :
  name +:+ ":body"
  ∉ map (λ e : N * ResponseDecl, name +:+ ":response" +:+ pretty e.1) entries.
Proof.
  intros ([s r] & H & _)%list_elem_of_fmap.
  apply (inj (String.append name)) in H. discriminate H.
Qed.

(** The registry entry of a declared response after the loop, when the
    status codes are pairwise distinct. *)
Lemma declareResponses_value name entries op st opD st' status r sch comps :
  declareResponses name entries op st = (Ret opD, st') →
  NoDup entries.*1 →
  (status, r) ∈ entries →
  rd_schema r = Some sch →
  components (createSchema sch) = Some comps →
  schemas st' !! (name +:+ ":response" +:+ pretty status)
  = Some (first_component comps).
Proof.
  revert op st. induction entries as [|[statusCode r0] rest IH]; intros op st.
  - by intros _ _ ?%elem_of_nil.
  - rewrite declareResponses_cons. simpl.
    intros H [Hnotin Hnd]%NoDup_cons [[= <- <-]|Hin]%elem_of_cons Hsch Hc.
    + rewrite Hsch in H. apply declareResponses_registry in H as [F _].
      rewrite F.
      * rewrite addZodSchema_nil, Hc. simpl. apply lookup_insert_eq.
      * intros ([s r'] & Heq & Hin)%list_elem_of_fmap.
        apply response_name_inj in Heq. simpl in Heq. subst s.
        apply Hnotin, list_elem_of_fmap. by exists (status, r').
    + by eapply IH.
Qed.

(** X10. The request body of a compiled operation.  When the route has a
    body schema whose conversion has a [components] member, the operation
    requires a body whose content, under the content type of the route or
    else [application/json], references the schema [<name>:body], and the
    registry holds under that name the first component of the conversion
    with the file fields written in; for a components object that is empty
    the route has no file field and the entry is [undefined].  When the
    route has no body schema, or one whose conversion has no [components]
    member, the operation has no request body and the entry [<name>:body]
    is as it was. *)
Theorem addDocRoute_request_body params st errs st' :
  addDocRoute params st = (Ret errs, st') →
  ∃ op,
    path_entry (paths st')
      (PathSyntax.expressRouteToOpenApiRoute (route params)) (method params)
    = Some op
    ∧ (∀ body comps,
         requestSchemas params ≫= rs_body = Some body →
         components (createSchema body) = Some comps →
         ∃ o,
           inject_fileFields
             (default [] (requestSchemas params ≫= rs_fileFields))
             (first_component comps)
           = Ret o
           ∧ op_requestBody op
             = Some {| rb_required := true;
                       rb_content :=
                         (default application_json
                            (requestSchemas params ≫= rs_contentType),
                          "#/components/schemas/" +:+ name params +:+ ":body") |}
           ∧ schemas st' !! (name params +:+ ":body") = Some o
           ∧ (comps = [] →
              default [] (requestSchemas params ≫= rs_fileFields) = []
              ∧ o = JUndefined))
    ∧ (requestSchemas params ≫= rs_body = None
       ∨ (∃ body, requestSchemas params ≫= rs_body = Some body
                  ∧ components (createSchema body) = None) →
       op_requestBody op = None
       ∧ schemas st' !! (name params +:+ ":body")
         = schemas st !! (name params +:+ ":body")).
Proof.
  intros (op & st0 & Hc & Hst & Hentry)%addDocRoute_shape.
  apply compileOperation_shape in Hc
    as (ps1 & st1 & ps2 & st2 & ps3 & st3 & rb & st4 & opD
        & H1 & H2 & H3 & Hb & Hd & _ & Hop).
  exists op. split; [done|].
  pose proof (declareResponses_registry _ _ _ _ _ _ Hd) as [Hframe _].
  specialize (Hframe _ (body_not_response (name params) (responses params))).
  apply declareResponses_frame in Hd as (_ & _ & _ & _ & Hrb).
  destruct (declareErrors_frame errs opD) as (_ & _ & Hrb').
  rewrite Hop, Hrb', Hrb, Hst, Hframe. simpl. split.
  - intros body comps Hbody Hcomps. rewrite Hbody in Hb.
    destruct Hb as (b & Ha & ->).
    apply addZodSchema_inv in Ha
      as [(_ & _ & ?)|(-> & comps' & o & Hcomps' & Hi & ->)]; [congruence|].
    rewrite Hcomps in Hcomps'. injection Hcomps' as <-.
    exists o. split; [done|]. split; [done|].
    split; [apply lookup_insert_eq|].
    intros ->. simpl in Hi.
    destruct (default [] (requestSchemas params ≫= rs_fileFields)) as [|f l];
      simpl in Hi; [|done].
    split; [done|congruence].
  - intros Hnone.
    assert (rb = None ∧ st4 = st3) as [-> ->].
    { destruct Hnone as [Hnone|(body & Hbody & Hcomps)].
      - rewrite Hnone in Hb. by destruct Hb as [-> ->].
      - rewrite Hbody in Hb. destruct Hb as (b & Ha & ->).
        apply addZodSchema_inv in Ha
          as [(-> & -> & _)|(_ & comps' & o & ? & _)]; [done|congruence]. }
    split; [done|].
    apply generateParamDocFromSchema_registry in H1 as [F1 _].
    apply generateParamDocFromSchema_registry in H2 as [F2 _].
    apply generateParamDocFromSchema_registry in H3 as [F3 _].
    rewrite F3, F2, F1; [done|by apply route_names_ne..].
Qed.

(** Where the declared references of a compiled operation point, and what
    the registry holds there. *)
Lemma compiled_references params st errs st' :
  addDocRoute params st = (Ret errs, st') →
  NoDup (responses params).*1 →
  ∃ op,
    path_entry (paths st')
      (PathSyntax.expressRouteToOpenApiRoute (route params)) (method params)
    = Some op
    ∧ (∀ status x ct ref,
         op_responses op !! status = Some x →
         content x = Some (ct, ref) →
         (∃ e, e ∈ errs ∧ statusOf e = status ∧ x = errorResponse e)
         ∨ (∃ r sch comps,
              (status, r) ∈ responses params
              ∧ rd_schema r = Some sch
              ∧ components (createSchema sch) = Some comps
              ∧ ref = schemaRef (name params +:+ ":response" +:+ pretty status)
              ∧ schemas st' !! (name params +:+ ":response" +:+ pretty status)
                = Some (first_component comps)))
    ∧ (∀ rb,
         op_requestBody op = Some rb →
         ∃ body comps o,
           requestSchemas params ≫= rs_body = Some body
           ∧ components (createSchema body) = Some comps
           ∧ inject_fileFields
               (default [] (requestSchemas params ≫= rs_fileFields))
               (first_component comps)
             = Ret o
           ∧ (rb_content rb).2 = schemaRef (name params +:+ ":body")
           ∧ schemas st' !! (name params +:+ ":body") = Some o).
Proof.
  intros (op & st0 & Hc & Hst & Hentry)%addDocRoute_shape Hnd.
  apply compileOperation_shape in Hc
    as (ps1 & st1 & ps2 & st2 & ps3 & st3 & rb & st4 & opD
        & _ & _ & _ & Hb & Hd & _ & Hop).
  exists op. split; [done|]. rewrite Hst, Hop. split.
  - intros status x ct ref Hx Hct. rewrite declareErrors_lookup in Hx.
    destruct (last_resolving status errs) as [e|] eqn:Hl.
    + left. exists e. apply last_resolving_Some in Hl as [? ?].
      by injection Hx as <-.
    + right.
      destruct (declareResponses_lookup _ _ _ _ _ _ Hd Hnd) as [L1 L2].
      destruct (decide (status ∈ (responses params).*1)) as [Hin|Hnin].
      * apply list_elem_of_fmap in Hin as ([s r] & Hs & Hin).
        simpl in Hs. subst s.
        rewrite (L2 _ _ Hin) in Hx. unfold responseFor in Hx.
        destruct (rd_schema r) as [sch|] eqn:Hsch.
        -- destruct (components (createSchema sch)) as [comps|] eqn:Hcs.
           ++ injection Hx as <-. simpl in Hct. injection Hct as <- <-.
              exists r, sch, comps. repeat split; try done.
              by eapply declareResponses_value.
           ++ simpl in Hx. by rewrite lookup_empty in Hx.
        -- injection Hx as <-. done.
      * rewrite L1 in Hx by done. simpl in Hx. by rewrite lookup_empty in Hx.
  - pose proof (declareResponses_registry _ _ _ _ _ _ Hd) as [Hframe _].
    specialize (Hframe _ (body_not_response (name params) (responses params))).
    apply declareResponses_frame in Hd as (_ & _ & _ & _ & Hrb).
    destruct (declareErrors_frame errs opD) as (_ & _ & Hrb').
    rewrite Hrb', Hrb, Hframe. simpl. intros rb' ->.
    destruct (requestSchemas params ≫= rs_body) as [body|];
      [|by destruct Hb as [_ [=]]].
    destruct Hb as (b & Ha & Hrb0). destruct b; [|done].
    injection Hrb0 as ->.
    apply addZodSchema_inv in Ha
      as [(? & _)|(_ & comps' & o & Hcomps & Hi & ->)]; [done|].
    exists body, comps', o. repeat split; try done.
    simpl. apply lookup_insert_eq.
Qed.

(** X11. Where the declared references of a compiled operation point, for
    a route whose status codes are pairwise distinct, as the keys of a
    record are.  The content of a response that is not the response of an
    error kind belongs to a declared response whose schema converts with a
    [components] member; it references [<name>:response<status>], and the
    registry holds under that name the first component of that conversion,
    which is [undefined] when the components object is empty.  The request
    body references [<name>:body], which holds the first component of the
    conversion of the body schema with the file fields written in. *)
Theorem addDocRoute_references_registered params st errs st' :
  addDocRoute params st = (Ret errs, st') →
  NoDup (responses params).*1 →
  ∃ op,
    path_entry (paths st')
      (PathSyntax.expressRouteToOpenApiRoute (route params)) (method params)
    = Some op
    ∧ (∀ status x ct ref,
         op_responses op !! status = Some x →
         content x = Some (ct, ref) →
         (∃ e, e ∈ errs ∧ statusOf e = status ∧ x = errorResponse e)
         ∨ (∃ r sch comps,
              (status, r) ∈ responses params
              ∧ rd_schema r = Some sch
              ∧ components (createSchema sch) = Some comps
              ∧ ref = schemaRef (name params +:+ ":response" +:+ pretty status)
              ∧ schemas st' !! (name params +:+ ":response" +:+ pretty status)
                = Some (first_component comps)))
    ∧ (∀ rb,
         op_requestBody op = Some rb →
         ∃ body comps o,
           requestSchemas params ≫= rs_body = Some body
           ∧ components (createSchema body) = Some comps
           ∧ inject_fileFields
               (default [] (requestSchemas params ≫= rs_fileFields))
               (first_component comps)
             = Ret o
           ∧ (rb_content rb).2 = schemaRef (name params +:+ ":body")
           ∧ schemas st' !! (name params +:+ ":body") = Some o).
Proof. apply compiled_references. Qed.

Lemma compileOperation_registry_frame params st r st' :
  compileOperation params st = (r, st') →
  (∀ k, k ∉ schemaNames params → schemas st' !! k = schemas st !! k)
  ∧ (∀ k, is_Some (schemas st !! k) → is_Some (schemas st' !! k))
  ∧ openapi_json st' = openapi_json st.
Proof.
  unfold compileOperation, bind. cbv zeta.
  set (eo0 := if decide (authenticatedUser params = none) then _ else _).
  clearbody eo0.
  destruct (generateParamDocFromSchema_returns (name params +:+ ":params")
              (requestSchemas params ≫= rs_params) path
              (default [] (requestSchemas params ≫= rs_optionalParams)) st)
    as (ps1 & st1 & E1 & _ & J1).
  destruct (generateParamDocFromSchema_registry _ _ _ _ _ _ _ E1) as [F1 M1].
  rewrite E1.
  destruct (generateParamDocFromSchema_returns (name params +:+ ":query")
              (requestSchemas params ≫= rs_query) query
              (default [] (requestSchemas params ≫= rs_optionalParams)) st1)
    as (ps2 & st2 & E2 & _ & J2).
  destruct (generateParamDocFromSchema_registry _ _ _ _ _ _ _ E2) as [F2 M2].
  rewrite E2.
  destruct (generateParamDocFromSchema_returns (name params +:+ ":cookies")
              (requestSchemas params ≫= rs_cookies) cookie
              (default [] (requestSchemas params ≫= rs_optionalParams)) st2)
    as (ps3 & st3 & E3 & _ & J3).
  destruct (generateParamDocFromSchema_registry _ _ _ _ _ _ _ E3) as [F3 M3].
  rewrite E3.
  set (eo3 := note_parameters ps3 _). clearbody eo3.
  assert (∀ st4 eo,
    (∀ k, k ≠ name params +:+ ":body" → schemas st4 !! k = schemas st3 !! k) →
    (∀ k, is_Some (schemas st3 !! k) → is_Some (schemas st4 !! k)) →
    openapi_json st4 = openapi_json st3 →
    (let (o0, st5) :=
       declareResponses (name params) (responses params) eo.2 st4 in
     match o0 with
     | Ret a0 => ret (declareErrors eo.1 a0, eo.1) st5
     | Raise e => (Raise e, st5)
     end) = (r, st') →
    (∀ k, k ∉ schemaNames params → schemas st' !! k = schemas st !! k)
    ∧ (∀ k, is_Some (schemas st !! k) → is_Some (schemas st' !! k))
    ∧ openapi_json st' = openapi_json st) as Hfinish.
  { intros st4 eo F4 M4 J4.
    destruct (declareResponses_returns (name params) (responses params)
                eo.2 st4) as (opD & st5 & Hd & _ & J5 & _).
    rewrite Hd. intros [= <- <-].
    apply declareResponses_registry in Hd as [F5 M5].
    split; [|split; [intros k Hk; by apply M5, M4, M3, M2, M1|congruence]].
    intros k Hk. unfold schemaNames in Hk.
    apply not_elem_of_app in Hk as [Hk1 Hk2].
    rewrite F5 by done.
    rewrite !not_elem_of_cons in Hk1. destruct Hk1 as (?&?&?&?&_).
    rewrite F4, F3, F2, F1 by done. done. }
  destruct (requestSchemas params ≫= rs_body) as [body|].
  - destruct (addZodSchema _ body _ st3) as [[b|e] st4] eqn:Ha.
    + destruct (addZodSchema_registry _ _ _ _ _ _ Ha) as [F4 M4].
      destruct (addZodSchema_frame _ _ _ _ _ _ Ha) as [_ J4].
      destruct b; unfold ret at 1; apply Hfinish; done.
    + apply addZodSchema_raise_keeps_store in Ha as ->.
      intros [= <- <-].
      split; [|split; [intros k Hk; by apply M3, M2, M1|congruence]].
      intros k Hk. unfold schemaNames in Hk.
      apply not_elem_of_app in Hk as [Hk1 _].
      rewrite !not_elem_of_cons in Hk1. destruct Hk1 as (?&?&?&?&_).
      by rewrite F3, F2, F1.
  - unfold ret at 1. apply Hfinish; done.
Qed.

(** X12. Whatever its outcome, [addDocRoute] removes no entry of the
    registry, changes no entry other than those named [<name>:params],
    [<name>:query], [<name>:cookies], [<name>:body] and
    [<name>:response<status>] for a declared status, and leaves the written
    file alone. *)
Theorem addDocRoute_registry_frame params st r st' :
  addDocRoute params st = (r, st') →
  (∀ k, k ∉ schemaNames params → schemas st' !! k = schemas st !! k)
  ∧ (∀ k, is_Some (schemas st !! k) → is_Some (schemas st' !! k))
  ∧ openapi_json st' = openapi_json st.
Proof.
  unfold addDocRoute, bind.
  destruct (compileOperation params st) as [[compiled|e] st0] eqn:Hc;
    apply compileOperation_registry_frame in Hc; by intros [= <- <-].
Qed.

Lemma declared_entry params st errs st' status :
  addDocRoute params st = (Ret errs, st') →
  NoDup (responses params).*1 →
  (∀ e, e ∈ errs → statusOf e ≠ status) →
  ∃ op,
    path_entry (paths st')
      (PathSyntax.expressRouteToOpenApiRoute (route params)) (method params)
    = Some op
    ∧ (status ∉ (responses params).*1 → op_responses op !! status = None)
    ∧ (∀ r, (status, r) ∈ responses params →
            op_responses op !! status = responseFor (name params) status r).
Proof.
  intros (op & st0 & Hc & _ & Hentry)%addDocRoute_shape Hnd Hnone.
  apply compileOperation_shape in Hc
    as (ps1 & st1 & ps2 & st2 & ps3 & st3 & rb & st4 & opD
        & _ & _ & _ & _ & Hd & _ & Hop).
  exists op. split; [done|].
  assert (op_responses op !! status = op_responses opD !! status) as ->.
  { rewrite Hop, declareErrors_lookup.
    destruct (last_resolving status errs) as [e|] eqn:Hl; [|done].
    apply last_resolving_Some in Hl as [Hin Hs]. by destruct (Hnone e Hin). }
  destruct (declareResponses_lookup _ _ _ _ _ _ Hd Hnd) as [L1 L2]. split.
  - intros Hnotin. by rewrite L1.
  - intros r Hin. rewrite (L2 _ _ Hin). simpl. rewrite lookup_empty.
    by destruct (responseFor (name params) status r).
Qed.

(** X13. A declared response whose schema does not register is dropped
    altogether, description included: unless an error kind resolves to its
    status, the compiled operation has no entry there.  (The status codes of
    the declared responses are pairwise distinct, as the keys of a record
    are.) *)
Theorem addDocRoute_response_dropped params st errs st' status r sch :
  addDocRoute params st = (Ret errs, st') →
  NoDup (responses params).*1 →
  (status, r) ∈ responses params →
  rd_schema r = Some sch →
  components (createSchema sch) = None →
  (∀ e, e ∈ errs → statusOf e ≠ status) →
  ∃ op,
    path_entry (paths st')
      (PathSyntax.expressRouteToOpenApiRoute (route params)) (method params)
    = Some op
    ∧ op_responses op !! status = None.
Proof.
  intros H Hnd Hin Hs Hc Hnone.
  destruct (declared_entry _ _ _ _ status H Hnd Hnone) as (op & ? & _ & Hl).
  exists op. split; [done|]. rewrite (Hl r Hin).
  unfold responseFor. by rewrite Hs, Hc.
Qed.

(** X14. What a declared response becomes, unless an error kind resolves to
    its status.  Without schema: the description alone, and the cookie note
    of the response is not used.  With a schema that registers: the
    description, a content block under the content type of the response or
    else [application/json] that references [<name>:response<status>], and
    a [Set-Cookie] header described by the cookie note when that note is a
    non-empty string. *)
Theorem addDocRoute_response_written params st errs st' status r :
  addDocRoute params st = (Ret errs, st') →
  NoDup (responses params).*1 →
  (status, r) ∈ responses params →
  (∀ e, e ∈ errs → statusOf e ≠ status) →
  ∃ op,
    path_entry (paths st')
      (PathSyntax.expressRouteToOpenApiRoute (route params)) (method params)
    = Some op
    ∧ (rd_schema r = None →
       op_responses op !! status
       = Some {| description := rd_description r; setCookie := None;
                 content := None |})
    ∧ (∀ sch, rd_schema r = Some sch →
         is_Some (components (createSchema sch)) →
         op_responses op !! status
         = Some {| description := rd_description r;
                   setCookie :=
                     match rd_cookies r with
                     | Some c => if decide (c = "") then None else Some c
                     | None => None
                     end;
                   content :=
                     Some (default application_json (rd_contentType r),
                           "#/components/schemas/" +:+ name params
                           +:+ ":response" +:+ pretty status) |}).
Proof.
  intros H Hnd Hin Hnone.
  destruct (declared_entry _ _ _ _ status H Hnd Hnone) as (op & ? & _ & Hl).
  exists op. split; [done|]. rewrite (Hl r Hin). unfold responseFor. split.
  - by intros ->.
  - intros sch -> [comps ->]. done.
Qed.

(** ** More about the document assembler *)

Lemma registerAll_snoc l n sch reg :
  registerAll (l ++ [(n, sch)]) reg
  = match components (createSchema sch) with
    | Some comps => <[n := first_component comps]> (registerAll l reg)
    | None => registerAll l reg
    end.
Proof. by rewrite registerAll_app. Qed.

Lemma registerAll_frame l reg k :
  k ∉ l.*1 → registerAll l reg !! k = reg !! k.
Proof.
  induction l as [|[n sch] l IH] using rev_ind; [done|].
  rewrite fmap_app, not_elem_of_app. simpl.
  intros [Hl Hn%not_elem_of_cons]. rewrite registerAll_snoc.
  destruct (components (createSchema sch)); [|by apply IH].
  rewrite lookup_insert_ne by (intros ->; by destruct Hn). by apply IH.
Qed.


Lemma registerAll_error_kind names reg n comps :
  n ∈ names →
  components (createSchema (customErrorSchema n)) = Some comps →
  registerAll (map (λ n, (n, customErrorSchema n)) names) reg !! n
  = Some (first_component comps).
Proof.
  intros Hin Hc. induction names as [|x names IH] using rev_ind.
  - by apply elem_of_nil in Hin.
  - rewrite map_app. simpl. rewrite registerAll_snoc.
    destruct (decide (x = n)) as [->|Hne].
    + rewrite Hc. apply lookup_insert_eq.
    + apply elem_of_app in Hin as [Hin|Hin%list_elem_of_singleton];
        [|congruence].
      destruct (components (createSchema (customErrorSchema x)));
        [rewrite lookup_insert_ne by done|]; by apply IH.
Qed.

(** X15. Whatever the outcome of [buildOpenApiDoc], every error kind of the
    enumeration whose schema converts with components has the first
    component of that conversion in the registry under its own name,
    whatever a route or the shared base schemas had registered under that
    name before; and the call returns whenever the environment is not
    development or the write of the file does not fail. *)
Theorem buildOpenApiDoc_registers_error_kinds st n comps :
  n ∈ errorNames →
  components (createSchema (customErrorSchema n)) = Some comps →
  ∃ r st1,
    buildOpenApiDoc st = (r, st1)
    ∧ schemas st1 !! n = Some (first_component comps)
    ∧ (NODE_ENV ≠ "development"
       ∨ write_fails (openapi_json st)
           (createDocument (builtInput (schemas st) (paths st)))
         = false →
       r = Ret (createDocument (builtInput (schemas st) (paths st)))).
Proof.
  intros Hin Hc.
  destruct (buildOpenApiDoc st) as [r st1] eqn:Hb. exists r, st1.
  split; [done|]. split.
  - apply buildOpenApiDoc_store in Hb as [-> _].
    unfold globalSchemas. rewrite registerAll_app.
    by apply registerAll_error_kind.
  - rewrite buildOpenApiDoc_run in Hb. simpl in Hb.
    intros [Hne|Hw].
    + rewrite decide_False in Hb by done. by injection Hb as <- _.
    + rewrite Hw in Hb. by destruct (decide _); injection Hb as <- _.
Qed.


(** X17. The file is written in the development environment only, and what
    is written is the serialization of the very document returned. *)
Theorem buildOpenApiDoc_file st doc st1 :
  buildOpenApiDoc st = (Ret doc, st1) →
  (NODE_ENV = "development" → openapi_json st1 = Some (stringify doc))
  ∧ (NODE_ENV ≠ "development" → openapi_json st1 = openapi_json st).
Proof.
  rewrite buildOpenApiDoc_run. simpl.
  destruct (decide (NODE_ENV = "development")) as [Hdev|Hdev].
  - destruct (write_fails _ _); intros [= <- <-]. by split.
  - intros [= <- <-]. by split.
Qed.

(** X18. A route registered right before a [buildOpenApiDoc] that returns
    is in the document, for a route whose status codes are pairwise
    distinct.  The argument handed to [createDocument] has the path table
    the route left, with the compiled operation under the translated path
    and the method of the route, and for schemas the registry the route left
    with the shared schemas registered over it.  There, an error kind of the
    enumeration whose schema converts with components holds the first
    component of that conversion; the name a declared response or the
    request body references holds what the route registered under it,
    provided that name is neither the name of a shared base schema nor an
    error kind. *)
Theorem addDocRoute_then_build params st errs st' doc st1 :
  addDocRoute params st = (Ret errs, st') →
  NoDup (responses params).*1 →
  buildOpenApiDoc st' = (Ret doc, st1) →
  ∃ di op,
    doc = createDocument di
    ∧ di_openapi di = "3.0.0"
    ∧ di_paths di = paths st'
    ∧ di_schemas di = registerAll globalSchemas (schemas st')
    ∧ path_entry (di_paths di)
        (PathSyntax.expressRouteToOpenApiRoute (route params)) (method params)
      = Some op
    ∧ (∀ status x ct ref,
         op_responses op !! status = Some x →
         content x = Some (ct, ref) →
         (∃ e, e ∈ errs ∧ statusOf e = status ∧ ref = schemaRef e
               ∧ (∀ comps,
                    e ∈ errorNames →
                    components (createSchema (customErrorSchema e))
                    = Some comps →
                    di_schemas di !! e = Some (first_component comps))
               ∧ (e ∉ bs_name <$> baseSchemas → e ∉ errorNames →
                  di_schemas di !! e = schemas st' !! e))
         ∨ (∃ r sch comps,
              (status, r) ∈ responses params
              ∧ rd_schema r = Some sch
              ∧ components (createSchema sch) = Some comps
              ∧ ref = schemaRef (name params +:+ ":response" +:+ pretty status)
              ∧ (name params +:+ ":response" +:+ pretty status
                   ∉ bs_name <$> baseSchemas →
                 name params +:+ ":response" +:+ pretty status ∉ errorNames →
                 di_schemas di
                   !! (name params +:+ ":response" +:+ pretty status)
                 = Some (first_component comps))))
    ∧ (∀ rb,
         op_requestBody op = Some rb →
         ∃ body comps o,
           requestSchemas params ≫= rs_body = Some body
           ∧ components (createSchema body) = Some comps
           ∧ inject_fileFields
               (default [] (requestSchemas params ≫= rs_fileFields))
               (first_component comps)
             = Ret o
           ∧ (rb_content rb).2 = schemaRef (name params +:+ ":body")
           ∧ (name params +:+ ":body" ∉ bs_name <$> baseSchemas →
              name params +:+ ":body" ∉ errorNames →
              di_schemas di !! (name params +:+ ":body") = Some o)).
Proof.
  intros H Hnd Hb.
  destruct (compiled_references _ _ _ _ H Hnd) as (op & Hentry & Hrefs & Hbody).
  apply buildOpenApiDoc_document in Hb as ->.
  exists (builtInput (schemas st') (paths st')), op.
  split; [done|]. split; [done|]. split; [done|]. split; [done|].
  split; [done|]. simpl.
  assert (Hframe : ∀ k, k ∉ bs_name <$> baseSchemas → k ∉ errorNames →
            registerAll globalSchemas (schemas st') !! k = schemas st' !! k).
  { intros k Hbase He. apply registerAll_frame. unfold globalSchemas.
    rewrite fmap_app, not_elem_of_app, <-!list_fmap_compose. split.
    - exact Hbase.
    - intros Hin. apply He. by rewrite list_fmap_id in Hin. }
  split.
  - intros status x ct ref Hx Hct.
    destruct (Hrefs _ _ _ _ Hx Hct)
      as [(e & He & Hs & ->)|(r & sch & comps & Hin & Hsch & Hc & -> & Hv)].
    + left. injection Hct as <- <-. exists e.
      split; [done|]. split; [done|]. split; [done|]. split.
      * intros comps Hin Hc. unfold globalSchemas. rewrite registerAll_app.
        by apply registerAll_error_kind.
      * intros Hbase Hne. by apply Hframe.
    + right. exists r, sch, comps. repeat split; try done.
      intros Hbase Hne. by rewrite Hframe.
  - intros rb Hrb.
    destruct (Hbody rb Hrb) as (body & comps & o & ? & ? & ? & ? & Hv).
    exists body, comps, o. repeat split; try done.
    intros Hbase Hne. by rewrite Hframe.
Qed.

(** X29. A compiled operation carries a security requirement exactly when
    the route is authenticated, whatever its schemas: the bearer-token
    requirement then, none otherwise. *)
Theorem addDocRoute_security_iff params st errs st' :
  addDocRoute params st = (Ret errs, st') →
  ∃ op,
    path_entry (paths st')
      (PathSyntax.expressRouteToOpenApiRoute (route params)) (method params)
    = Some op
    ∧ (authenticatedUser params = none ↔ op_security op = None)
    ∧ (authenticatedUser params ≠ none ↔ op_security op = Some bearerAuth)
    ∧ (authenticatedUser params = none →
       UNAUTHORIZED ∈ errs →
       UNAUTHORIZED ∈ default [] (errors params)
       ∨ UNAUTHORIZED = VALIDATION_ERROR).
Proof.
  intros (op & op0 & Hentry & _ & Hsec & He)%compiled_entry.
  exists op. split; [done|]. rewrite Hsec.
  destruct (decide (authenticatedUser params = none)) as [Hnone|Hauth].
  - split; [done|]. split; [by split|].
    intros _ Hin. destruct He as [->| ->]; [by left|].
    unfold push_if_missing in Hin.
    destruct (decide (VALIDATION_ERROR ∈ default [] (errors params)));
      [by left|].
    apply elem_of_app in Hin as [?|Hin%list_elem_of_singleton]; auto.
  - split; [by split|]. split; [by split|]. done.
Qed.

End Generator.

(** ** Facts about the path syntax translator *)

Module PathSyntaxFacts.
Import PathSyntax.
#[local] Open Scope nat_scope.

Lemma is_colon_true c : is_colon c = true → c = ":"%char.
Proof. apply Ascii.eqb_eq. Qed.

Lemma is_colon_not_word c : is_colon c = true → is_word c = false.
Proof. by intros ->%is_colon_true. Qed.

Lemma is_word_not_colon c : is_word c = true → is_colon c = false.
Proof.
  intros Hw. destruct (is_colon c) eqn:E; [|done].
  apply is_colon_not_word in E. congruence.
Qed.

Lemma take_word_length s : String.length (take_word s).2 ≤ String.length s.
Proof.
  induction s as [|c r IH]; simpl; [done|].
  destruct (is_word c); [|done].
  destruct (take_word r) as [w rest]. simpl in IH |- *. lia.
Qed.

Lemma take_word_not_word s : starts_word s = false → take_word s = ("", s).
Proof. destruct s as [|c r]; simpl; [done|]. by intros ->. Qed.

Lemma take_word_name name rest :
  all_word name = true → starts_word rest = false →
  take_word (name +:+ rest) = (name, rest).
Proof.
  intros Hw Hr. induction name as [|c name IH]; simpl.
  - by apply take_word_not_word.
  - simpl in Hw. apply andb_prop in Hw as [-> Hw]. by rewrite IH.
Qed.

Lemma take_word_split s :
  s = (take_word s).1 +:+ (take_word s).2
  ∧ all_word (take_word s).1 = true
  ∧ starts_word (take_word s).2 = false.
Proof.
  induction s as [|c r (IH1 & IH2 & IH3)]; simpl; [done|].
  destruct (is_word c) eqn:Hc.
  - destruct (take_word r) as [w rest]. simpl in IH1, IH2, IH3 |- *.
    rewrite Hc, IH2, IH3. split; [|done]. by rewrite IH1 at 1.
  - simpl. by rewrite Hc.
Qed.

(** Fuel beyond the length of the string changes nothing. *)
Lemma replace_placeholders_fuel n m p :
  String.length p ≤ n → String.length p ≤ m →
  replace_placeholders n p = replace_placeholders m p.
Proof.
  revert m p. induction n as [|n IH]; intros m p Hn Hm.
  - destruct p; simpl in Hn; [|lia]. by destruct m.
  - destruct p as [|c r]; [by destruct m|].
    destruct m as [|m]; simpl in Hn, Hm; [lia|]. simpl.
    pose proof (take_word_length r) as Hl.
    destruct (is_colon c).
    + destruct (take_word r) as [[|d w] rest]; simpl in Hl.
      * f_equal. apply IH; lia.
      * do 2 f_equal. rewrite (IH m rest) by lia. done.
    + f_equal. apply IH; lia.
Qed.

(** The translator, one scan position at a time. *)
Lemma translate_cons c r :
  expressRouteToOpenApiRoute (String c r)
  = if is_colon c then
      match take_word r with
      | (EmptyString, _) => String c (expressRouteToOpenApiRoute r)
      | (w, rest) => "{" +:+ w +:+ "}" +:+ expressRouteToOpenApiRoute rest
      end
    else String c (expressRouteToOpenApiRoute r).
Proof.
  unfold expressRouteToOpenApiRoute. simpl.
  pose proof (take_word_length r) as Hl.
  destruct (is_colon c); [|done].
  destruct (take_word r) as [[|d w] rest]; [done|]. simpl in Hl.
  by rewrite (replace_placeholders_fuel (String.length r) (String.length rest))
    by lia.
Qed.

Lemma translate_other c r :
  is_colon c = false →
  expressRouteToOpenApiRoute (String c r)
  = String c (expressRouteToOpenApiRoute r).
Proof. intros H. by rewrite translate_cons, H. Qed.

Lemma translate_bare_colon r :
  starts_word r = false →
  expressRouteToOpenApiRoute (String ":" r)
  = String ":" (expressRouteToOpenApiRoute r).
Proof. intros H. by rewrite translate_cons, (take_word_not_word r H). Qed.

Lemma translate_placeholder name rest :
  name ≠ "" → all_word name = true → starts_word rest = false →
  expressRouteToOpenApiRoute (":" +:+ name +:+ rest)
  = "{" +:+ name +:+ "}" +:+ expressRouteToOpenApiRoute rest.
Proof.
  intros Hne Hw Hr.
  change (":" +:+ name +:+ rest) with (String ":" (name +:+ rest)).
  rewrite translate_cons, (take_word_name name rest Hw Hr). simpl.
  by destruct name.
Qed.

Lemma translate_no_placeholder p :
  no_placeholder p = true → expressRouteToOpenApiRoute p = p.
Proof.
  induction p as [|c r IH]; [done|]. simpl.
  intros [Hc Hr]%andb_prop. rewrite translate_cons, (IH Hr).
  destruct (is_colon c); [|done].
  simpl in Hc. apply negb_true_iff in Hc.
  by rewrite (take_word_not_word r Hc).
Qed.

Lemma starts_word_translate r :
  starts_word r = false → starts_word (expressRouteToOpenApiRoute r) = false.
Proof.
  destruct r as [|d r]; [done|]. simpl. intros Hd. rewrite translate_cons.
  destruct (is_colon d); [|done].
  by destruct (take_word r) as [[|e w] rest].
Qed.

Lemma no_placeholder_word_app w t :
  all_word w = true → no_placeholder (w +:+ t) = no_placeholder t.
Proof.
  intros Hw. induction w as [|c w IH]; [done|]. simpl in *.
  apply andb_prop in Hw as [Hc Hw]. by rewrite (is_word_not_colon c Hc), IH.
Qed.

Lemma no_placeholder_translate_fuel n p :
  String.length p ≤ n → no_placeholder (expressRouteToOpenApiRoute p) = true.
Proof.
  revert p. induction n as [|n IH]; intros p Hn.
  - by destruct p; simpl in Hn; [|lia].
  - destruct p as [|c r]; [done|]. simpl in Hn. rewrite translate_cons.
    destruct (is_colon c) eqn:Hc.
    + destruct (take_word_split r) as (Hsplit & Hw & Hrest).
      pose proof (take_word_length r) as Hl.
      destruct (take_word r) as [[|d w] rest]; simpl in Hsplit, Hw, Hrest, Hl.
      * assert (r = rest) as -> by exact Hsplit.
        simpl. rewrite Hc, (starts_word_translate _ Hrest). simpl.
        apply IH. lia.
      * change ("{" +:+ String d w +:+ "}" +:+ expressRouteToOpenApiRoute rest)
          with (String "{" (String d w +:+ String "}" (expressRouteToOpenApiRoute rest))).
        cbn [no_placeholder].
        rewrite (no_placeholder_word_app (String d w) _ Hw).
        cbn [no_placeholder]. simpl.
        apply IH. lia.
    + simpl. rewrite Hc. simpl. apply IH. lia.
Qed.

Lemma no_placeholder_translate p :
  no_placeholder (expressRouteToOpenApiRoute p) = true.
Proof. by apply (no_placeholder_translate_fuel (String.length p)). Qed.

Lemma translate_idempotent p :
  expressRouteToOpenApiRoute (expressRouteToOpenApiRoute p)
  = expressRouteToOpenApiRoute p.
Proof. apply translate_no_placeholder, no_placeholder_translate. Qed.

(** C8. The translator turns [:name], with [name] the longest run of
    characters of [[A-Za-z0-9_]] behind the colon, into [{name}] and copies
    every other character, a colon with no such run behind it included; it
    leaves an input without placeholder as it is, so that translating twice
    is translating once on such an input, and indeed on every input. *)
Theorem expressRouteToOpenApiRoute_spec :
  (∀ name rest,
     name ≠ "" → all_word name = true → starts_word rest = false →
     expressRouteToOpenApiRoute (":" +:+ name +:+ rest)
     = "{" +:+ name +:+ "}" +:+ expressRouteToOpenApiRoute rest)
  ∧ (∀ c rest,
       is_colon c = false →
       expressRouteToOpenApiRoute (String c rest)
       = String c (expressRouteToOpenApiRoute rest))
  ∧ (∀ rest,
       starts_word rest = false →
       expressRouteToOpenApiRoute (String ":" rest)
       = String ":" (expressRouteToOpenApiRoute rest))
  ∧ expressRouteToOpenApiRoute "" = ""
  ∧ (∀ p,
       no_placeholder p = true →
       expressRouteToOpenApiRoute p = p
       ∧ expressRouteToOpenApiRoute (expressRouteToOpenApiRoute p)
         = expressRouteToOpenApiRoute p)
  ∧ (∀ p,
       expressRouteToOpenApiRoute (expressRouteToOpenApiRoute p)
       = expressRouteToOpenApiRoute p).
Proof.
  split; [exact translate_placeholder|].
  split; [exact translate_other|].
  split; [exact translate_bare_colon|].
  split; [done|].
  split; [|exact translate_idempotent].
  intros p Hp. split; [by apply translate_no_placeholder|].
  apply translate_idempotent.
Qed.

Lemma append_assoc (a b c : string) : (a +:+ b) +:+ c = a +:+ (b +:+ c).
Proof.
  induction a as [|x a IH]; [done|].
  change (String x ((a +:+ b) +:+ c) = String x (a +:+ (b +:+ c))).
  by rewrite IH.
Qed.

Lemma take_word_before_other a c b :
  is_word c = false →
  take_word (a +:+ String c b)
  = ((take_word a).1, (take_word a).2 +:+ String c b).
Proof.
  intros Hc. induction a as [|x a IH]; simpl.
  - by rewrite Hc.
  - destruct (is_word x); [|done].
    rewrite IH. by destruct (take_word a).
Qed.

Lemma translate_segment_fuel n a c b :
  String.length a ≤ n →
  is_word c = false → is_colon c = false →
  expressRouteToOpenApiRoute (a +:+ String c b)
  = expressRouteToOpenApiRoute a +:+ String c (expressRouteToOpenApiRoute b).
Proof.
  intros Hn Hw Hc. revert a Hn. induction n as [|n IH]; intros a Hn.
  - destruct a; simpl in Hn; [|lia]. by apply translate_other.
  - destruct a as [|d r]; [by apply translate_other|]. simpl in Hn.
    change (String d r +:+ String c b) with (String d (r +:+ String c b)).
    rewrite !translate_cons, (take_word_before_other r c b Hw).
    pose proof (take_word_length r) as Hl.
    destruct (is_colon d).
    + destruct (take_word r) as [[|e w] rest]; simpl in Hl |- *.
      * rewrite IH by lia. done.
      * rewrite IH by lia. by rewrite !append_assoc.
    + rewrite IH by lia. done.
Qed.

(** X19. The translator works segment by segment: a character that is
    neither a colon nor of the class [[A-Za-z0-9_]], a slash for one, splits
    the template into parts that are translated on their own. *)
Theorem translate_segmentwise a c b :
  is_word c = false → is_colon c = false →
  expressRouteToOpenApiRoute (a +:+ String c b)
  = expressRouteToOpenApiRoute a +:+ String c (expressRouteToOpenApiRoute b).
Proof. by apply (translate_segment_fuel (String.length a)). Qed.

(** X20. No placeholder is left in a translated template, and the
    templates the translator leaves unchanged are exactly those without
    placeholder. *)
Theorem translate_fixed_points p :
  no_placeholder (expressRouteToOpenApiRoute p) = true
  ∧ (expressRouteToOpenApiRoute p = p ↔ no_placeholder p = true).
Proof.
  split; [apply no_placeholder_translate|]. split.
  - intros <-. apply no_placeholder_translate.
  - apply translate_no_placeholder.
Qed.

End PathSyntaxFacts.

(** ** Facts about the helpers of the sitemap script *)

Module SiteMapFacts.
Import SiteMap.

Lemma app_assoc_s (a b c : string) : (a +:+ b) +:+ c = a +:+ (b +:+ c).
Proof.
  induction a as [|x a IH]; [done|].
  change (String x ((a +:+ b) +:+ c) = String x (a +:+ (b +:+ c))).
  by rewrite IH.
Qed.

Lemma replace_char_app c r a b :
  replace_char c r (a +:+ b) = replace_char c r a +:+ replace_char c r b.
Proof.
  induction a as [|d a IH]; [done|].
  change (String d a +:+ b) with (String d (a +:+ b)). simpl.
  rewrite IH. destruct (Ascii.eqb d c); [|done].
  by rewrite app_assoc_s.
Qed.

(** [xmlEscape], one character at a time: the five replacements in a row
    amount to a single pass. *)
Lemma xmlEscape_cons c s :
  xmlEscape (String c s) = escaped c +:+ xmlEscape s.
Proof.
  unfold xmlEscape, escaped.
  cbn [replace_char].
  destruct (Ascii.eqb c "&") eqn:E1.
  { by rewrite !replace_char_app. }
  cbn [replace_char]. destruct (Ascii.eqb c dquote) eqn:E2.
  { by rewrite !replace_char_app. }
  cbn [replace_char]. destruct (Ascii.eqb c "'") eqn:E3.
  { by rewrite !replace_char_app. }
  cbn [replace_char]. destruct (Ascii.eqb c "<") eqn:E4.
  { by rewrite !replace_char_app. }
  cbn [replace_char]. by destruct (Ascii.eqb c ">") eqn:E5.
Qed.

Lemma xmlEscape_app a b : xmlEscape (a +:+ b) = xmlEscape a +:+ xmlEscape b.
Proof. unfold xmlEscape. by rewrite !replace_char_app. Qed.

Lemma occurs_app c a b : occurs c (a +:+ b) = occurs c a || occurs c b.
Proof.
  induction a as [|d a IH]; [done|].
  change (String d a +:+ b) with (String d (a +:+ b)). simpl.
  by rewrite IH, orb_assoc.
Qed.

Lemma escaped_clean c d :
  d = "<"%char ∨ d = ">"%char ∨ d = dquote ∨ d = "'"%char →
  occurs d (escaped c) = false.
Proof.
  intros Hd. unfold escaped.
  destruct (Ascii.eqb c "&") eqn:E1;
    [by destruct Hd as [->|[->|[->| ->]]]|].
  destruct (Ascii.eqb c dquote) eqn:E2;
    [by destruct Hd as [->|[->|[->| ->]]]|].
  destruct (Ascii.eqb c "'") eqn:E3;
    [by destruct Hd as [->|[->|[->| ->]]]|].
  destruct (Ascii.eqb c "<") eqn:E4;
    [by destruct Hd as [->|[->|[->| ->]]]|].
  destruct (Ascii.eqb c ">") eqn:E5;
    [by destruct Hd as [->|[->|[->| ->]]]|].
  simpl. rewrite orb_false_r.
  destruct Hd as [->|[->|[->| ->]]]; done.
Qed.

(** X21. [xmlEscape] treats every character on its own, whatever the order
    of its five replacements: the text of a concatenation is the
    concatenation of the texts, each of the five special characters becomes
    its entity, once, and any other character stays. *)
Theorem xmlEscape_single_pass :
  (∀ a b, xmlEscape (a +:+ b) = xmlEscape a +:+ xmlEscape b)
  ∧ xmlEscape "&" = "&amp;"
  ∧ xmlEscape "<" = "&lt;"
  ∧ xmlEscape ">" = "&gt;"
  ∧ xmlEscape "'" = "&apos;"
  ∧ xmlEscape (String dquote "") = "&quot;"
  ∧ (∀ c, c ≠ "&"%char → c ≠ "<"%char → c ≠ ">"%char → c ≠ "'"%char →
          c ≠ dquote →
          xmlEscape (String c "") = String c "").
Proof.
  split; [exact xmlEscape_app|]. repeat (split; [reflexivity|]).
  intros c H1 H2 H3 H4 H5. rewrite xmlEscape_cons. unfold escaped.
  apply Ascii.eqb_neq in H1, H2, H3, H4, H5.
  by rewrite H1, H2, H3, H4, H5.
Qed.

(** X22. The text [xmlEscape] returns contains none of the characters
    [<], [>], the double quote and the single quote. *)
Theorem xmlEscape_clean s d :
  d = "<"%char ∨ d = ">"%char ∨ d = dquote ∨ d = "'"%char →
  occurs d (xmlEscape s) = false.
Proof.
  intros Hd. induction s as [|c s IH]; [done|].
  by rewrite xmlEscape_cons, occurs_app, IH, escaped_clean.
Qed.

Lemma escaped_prefix_inj c d x y :
  escaped c +:+ x = escaped d +:+ y → c = d ∧ x = y.
Proof.
  unfold escaped.
  destruct (Ascii.eqb c "&") eqn:C1; [apply Ascii.eqb_eq in C1|];
  [|destruct (Ascii.eqb c dquote) eqn:C2; [apply Ascii.eqb_eq in C2|];
    [|destruct (Ascii.eqb c "'") eqn:C3; [apply Ascii.eqb_eq in C3|];
      [|destruct (Ascii.eqb c "<") eqn:C4; [apply Ascii.eqb_eq in C4|];
        [|destruct (Ascii.eqb c ">") eqn:C5; [apply Ascii.eqb_eq in C5|]]]]];
  (destruct (Ascii.eqb d "&") eqn:D1; [apply Ascii.eqb_eq in D1|];
   [|destruct (Ascii.eqb d dquote) eqn:D2; [apply Ascii.eqb_eq in D2|];
     [|destruct (Ascii.eqb d "'") eqn:D3; [apply Ascii.eqb_eq in D3|];
       [|destruct (Ascii.eqb d "<") eqn:D4; [apply Ascii.eqb_eq in D4|];
         [|destruct (Ascii.eqb d ">") eqn:D5; [apply Ascii.eqb_eq in D5|]]]]]);
  intros H; vm_compute in H; subst;
  try (injection H as ?; subst; try done);
  try discriminate.
Qed.

Lemma escaped_nonempty c x : escaped c +:+ x ≠ "".
Proof.
  unfold escaped.
  repeat match goal with
         | |- context [Ascii.eqb c ?k] => destruct (Ascii.eqb c k)
         end; discriminate.
Qed.

(** X23. [xmlEscape] loses nothing: two texts with the same escaped form
    are the same text. *)
Theorem xmlEscape_injective a b : xmlEscape a = xmlEscape b → a = b.
Proof.
  revert b. induction a as [|c a IH]; intros [|d b].
  - done.
  - rewrite xmlEscape_cons. intros H. symmetry in H.
    by apply escaped_nonempty in H.
  - rewrite xmlEscape_cons. intros H. by apply escaped_nonempty in H.
  - rewrite !xmlEscape_cons. intros [-> H]%escaped_prefix_inj.
    by rewrite (IH b H).
Qed.

Lemma strip_trailing_slash_end p :
  strip_trailing_slashes (p +:+ "/") = strip_trailing_slashes p.
Proof.
  induction p as [|c p IH]; [done|].
  change (String c p +:+ "/") with (String c (p +:+ "/")). simpl.
  by rewrite IH.
Qed.

(** X24. Slashes at the joint do not matter to [joinUrl]: one more at the
    end of the prefix or at the head of the segment gives the same path. *)
Theorem joinUrl_joint_slashes p s :
  joinUrl (p +:+ "/") s = joinUrl p s
  ∧ joinUrl p ("/" +:+ s) = joinUrl p s.
Proof.
  unfold joinUrl. by rewrite strip_trailing_slash_end.
Qed.

Lemma strip_trailing_absolute p :
  begins_with_slash p = true →
  strip_trailing_slashes p = ""
  ∨ begins_with_slash (strip_trailing_slashes p) = true.
Proof.
  destruct p as [|c p]; [done|]. simpl. intros Hc. rewrite Hc.
  destruct (strip_trailing_slashes p); simpl; auto.
Qed.

Lemma joinUrl_begins_with_slash p s :
  p = "" ∨ begins_with_slash p = true →
  begins_with_slash (joinUrl p s) = true.
Proof.
  unfold joinUrl. intros Hp.
  assert (strip_trailing_slashes p = ""
          ∨ begins_with_slash (strip_trailing_slashes p) = true) as Ha.
  { destruct Hp as [->|Hp]; [by left|by apply strip_trailing_absolute]. }
  destruct (strip_trailing_slashes p) as [|c a];
    [by destruct (strip_leading_slashes s)|].
  destruct Ha as [|Ha]; [done|]. simpl in Ha.
  by destruct (strip_leading_slashes s).
Qed.

(** X25. [joinUrl] never returns the empty path, and under a prefix that is
    empty or begins with a slash it returns a path that begins with a
    slash. *)
Theorem joinUrl_absolute p s :
  joinUrl p s ≠ ""
  ∧ (p = "" ∨ begins_with_slash p = true →
     begins_with_slash (joinUrl p s) = true).
Proof.
  split; [|apply joinUrl_begins_with_slash].
  unfold joinUrl.
  destruct (strip_trailing_slashes p), (strip_leading_slashes s); discriminate.
Qed.

Lemma push_indexable_elem E full out x :
  x ∈ push_indexable E full out →
  x ∈ out ∨ (x = full ∧ isParamRoute full = false ∧ isExcluded E full = false).
Proof.
  unfold push_indexable.
  destruct (isParamRoute full), (isExcluded E full); simpl; auto.
  intros [?|Hx%list_elem_of_singleton]%elem_of_app; subst; auto.
Qed.

Lemma push_indexable_prefix E full out : out `prefix_of` push_indexable E full out.
Proof.
  unfold push_indexable.
  destruct (negb _ && negb _); [by apply prefix_app_r|done].
Qed.

(** Induction on a routes value, with the values of an object at hand. *)
Lemma RouteVal_nested_ind (P : RouteVal → Prop) :
  (∀ s, P (RString s)) →
  (∀ entries, Forall (λ kv, P kv.2) entries → P (RObject entries)) →
  P ROther →
  ∀ v, P v.
Proof.
  intros Hs Ho Hx. fix IH 1. intros [s|entries|].
  - apply Hs.
  - apply Ho. induction entries as [|[k v] rest IHrest]; constructor.
    + apply IH.
    + apply IHrest.
  - apply Hx.
Qed.

(** What the loop over the entries of an object keeps true of [out]. *)
Lemma collectRoutes_keeps E (Q : string → list string → Prop) :
  (∀ prefix out, Q prefix out → ∀ s, Q prefix (push_indexable E (joinUrl prefix s) out)) →
  (∀ prefix out, Q prefix out → ∀ s,
     Q (joinUrl prefix s) (push_indexable E (joinUrl prefix s) out)) →
  (∀ prefix prefix' out out', Q prefix out → Q prefix' out' → Q prefix out') →
  ∀ obj prefix out, Q prefix out → ∃ prefix', Q prefix' (collectRoutes E obj prefix out).
Proof.
  intros Hpush Hbase Hback obj.
  induction obj as [s|entries IH|] using RouteVal_nested_ind;
    intros prefix out HQ; [by exists prefix| |by exists prefix].
  simpl.
  assert (∃ prefix1 out1,
    (match obj_get "BASE" entries with
     | Some (RString base) =>
         (joinUrl prefix base,
          push_indexable E (joinUrl prefix base) out)
     | _ => (prefix, out)
     end) = (prefix1, out1) ∧ Q prefix1 out1) as (prefix1 & out1 & -> & HQ1).
  { destruct (obj_get "BASE" entries) as [[base| |]|]; eauto. }
  exists prefix1. clear HQ. revert out1 HQ1.
  induction IH as [|[k v] rest Hv _ IHrest]; intros out1 HQ1; [done|].
  simpl in Hv |- *.
  destruct (decide (k = "BASE")); [by apply IHrest|].
  destruct v as [s|es|].
  - apply IHrest. by apply Hpush.
  - apply IHrest. destruct (Hv prefix1 out1 HQ1) as [prefix' HQ'].
    by eapply Hback.
  - by apply IHrest.
Qed.

(** X26. [collectRoutes] only adds to [out], behind what is there, and
    every path it adds has no colon and starts with none of the excluded
    prefixes. *)
Theorem collectRoutes_indexable E obj prefix out :
  out `prefix_of` collectRoutes E obj prefix out
  ∧ ∀ x, x ∈ collectRoutes E obj prefix out →
         x ∈ out ∨ (isParamRoute x = false ∧ isExcluded E x = false).
Proof.
  destruct (collectRoutes_keeps E
    (λ _ out', out `prefix_of` out'
               ∧ ∀ x, x ∈ out' →
                      x ∈ out ∨ (isParamRoute x = false ∧ isExcluded E x = false)))
    with (obj := obj) (prefix := prefix) (out := out) as [_ H]; [..|done].
  - intros p o [Hpre Hin] s. split.
    + etrans; [exact Hpre|apply push_indexable_prefix].
    + intros x [?|(-> & ? & ?)]%push_indexable_elem; auto.
  - intros p o [Hpre Hin] s. split.
    + etrans; [exact Hpre|apply push_indexable_prefix].
    + intros x [?|(-> & ? & ?)]%push_indexable_elem; auto.
  - by intros ? ? ? ? _ ?.
  - split; [done|auto].
Qed.

(** X27. Started under a prefix that is empty or begins with a slash, as
    the script starts it, [collectRoutes] adds only paths that begin with a
    slash. *)
Theorem collectRoutes_absolute E obj prefix out x :
  prefix = "" ∨ begins_with_slash prefix = true →
  x ∈ collectRoutes E obj prefix out →
  x ∈ out ∨ begins_with_slash x = true.
Proof.
  intros Hp.
  destruct (collectRoutes_keeps E
    (λ p out', (p = "" ∨ begins_with_slash p = true)
               ∧ ∀ x, x ∈ out' → x ∈ out ∨ begins_with_slash x = true))
    with (obj := obj) (prefix := prefix) (out := out) as [p' [_ H]];
    [..|by apply H].
  - intros p o [Hpre Hin] s. split; [done|].
    intros y [?|(-> & _)]%push_indexable_elem; [auto|].
    right. by apply joinUrl_begins_with_slash.
  - intros p o [Hpre Hin] s. split.
    + right. by apply joinUrl_begins_with_slash.
    + intros y [?|(-> & _)]%push_indexable_elem; [auto|].
      right. by apply joinUrl_begins_with_slash.
  - intros ? ? ? ? [? _] [_ ?]. done.
  - split; [done|auto].
Qed.

Lemma unique_fold {A} `{EqDecision A} (arr seen : list A) :
  NoDup seen →
  let res :=
    fold_left (λ seen x, if decide (x ∈ seen) then seen else (seen ++ [x])%list)
      arr seen in
  NoDup res
  ∧ (∀ x, x ∈ res ↔ x ∈ seen ∨ x ∈ arr)
  ∧ seen `prefix_of` res
  ∧ (NoDup (seen ++ arr)%list → res = (seen ++ arr)%list).
Proof.
  revert seen. induction arr as [|a arr IH]; intros seen Hnd; simpl.
  - split; [done|]. split; [intros x; rewrite elem_of_nil; tauto|].
    split; [done|]. by rewrite app_nil_r.
  - destruct (decide (a ∈ seen)) as [Hin|Hnin].
    + destruct (IH seen Hnd) as (H1 & H2 & H3 & H4).
      split; [done|]. split; [|split; [done|]].
      * intros x. rewrite H2, elem_of_cons.
        split; [tauto|]. intros [?|[->|?]]; auto.
      * intros Hd. apply NoDup_app in Hd as (_ & Hd & _).
        destruct (Hd a Hin). by left.
    + assert (NoDup (seen ++ [a])%list) as Hnd'.
      { apply NoDup_app. split; [done|]. split; [|apply NoDup_singleton].
        intros y Hy ->%list_elem_of_singleton. done. }
      destruct (IH _ Hnd') as (H1 & H2 & H3 & H4).
      split; [done|]. split; [|split].
      * intros x.
        rewrite H2, elem_of_app, list_elem_of_singleton, elem_of_cons. tauto.
      * etrans; [|exact H3]. by apply prefix_app_r.
      * intros Hd. rewrite <-app_assoc in H4. by apply H4.
Qed.

(** X28. [unique] returns the elements of the array, each once, and an
    array without repetition as it is. *)
Theorem unique_spec {A} `{EqDecision A} (arr : list A) :
  NoDup (unique arr)
  ∧ (∀ x, x ∈ unique arr ↔ x ∈ arr)
  ∧ (NoDup arr → unique arr = arr).
Proof.
  destruct (unique_fold arr [] (NoDup_nil_2)) as (H1 & H2 & _ & H4).
  split; [done|]. split; [|done].
  intros x. rewrite H2, elem_of_nil. tauto.
Qed.

End SiteMapFacts.

(** ** Worked examples *)


Example translate_items :
  PathSyntax.expressRouteToOpenApiRoute "/items/:id" = "/items/{id}".
Proof. reflexivity. Qed.

Example translate_two :
  PathSyntax.expressRouteToOpenApiRoute "/u/:user_id/posts/:postId.json"
  = "/u/{user_id}/posts/{postId}.json".
Proof. reflexivity. Qed.

Example translate_malformed :
  PathSyntax.expressRouteToOpenApiRoute "/a/:/b::c:" = "/a/:/b:{c}:".
Proof. reflexivity. Qed.

(** [GET /items/:id] with a path-parameter schema, one 200 response with a
    body schema, and a signed-in user. *)
Example getItem_compiled :
  ∃ st' op,
    addDocRoute Demo.createSchema "UNAUTHORIZED" "VALIDATION_ERROR"
      Demo.errorStatusMap Demo.getItem empty_store
    = (Ret ["UNAUTHORIZED"; "VALIDATION_ERROR"], st')
    ∧ path_entry (paths st') "/items/{id}" get = Some op
    ∧ op_parameters op
      = [ {| p_name := "id"; p_in := path; p_required := true;
             p_schema := Demo.createSchema Demo.zString |} ]
    ∧ op_requestBody op = None
    ∧ dom (op_responses op) = {[ 200%N; 400%N; 401%N ]}
    ∧ op_responses op !! 200%N
      = Some {| description := "The item"; setCookie := None;
                content := Some (application_json,
                                 "#/components/schemas/getItem:response200") |}
    ∧ dom (schemas st') = {[ "getItem:params"; "getItem:response200" ]}.
Proof.
  eexists _, _. split; [vm_compute; reflexivity|].
  split; [vm_compute; reflexivity|].
  repeat split; vm_compute; reflexivity.
Qed.

Lemma expressRouteToOpenApiRoute_spec_witness :
  PathSyntax.expressRouteToOpenApiRoute (":" +:+ "id" +:+ "/edit")
  = "{" +:+ "id" +:+ "}" +:+ PathSyntax.expressRouteToOpenApiRoute "/edit"
  ∧ PathSyntax.expressRouteToOpenApiRoute "/items" = "/items"
  ∧ PathSyntax.expressRouteToOpenApiRoute
      (PathSyntax.expressRouteToOpenApiRoute "/items")
    = PathSyntax.expressRouteToOpenApiRoute "/items".
Proof.
  destruct PathSyntaxFacts.expressRouteToOpenApiRoute_spec
    as (Hname & _ & _ & _ & Hnone & _).
  split; [apply Hname; [discriminate|reflexivity..]|].
  apply Hnone. reflexivity.
Defined.

Lemma addZodSchema_empty_components_witness :
  components (Demo.createSchemaLib Demo.zString) = Some []
  ∧ addZodSchema Demo.createSchemaLib "getItem:query" Demo.zString []
      empty_store
    = (Ret true,
       {| schemas := <["getItem:query" := JUndefined]> ∅; paths := ∅;
          openapi_json := None |})
  ∧ addZodSchema Demo.createSchemaLib "getItem:query" Demo.zString
      [Demo.fileField] empty_store
    = (Raise TypeError, empty_store)
  ∧ addZodSchema Demo.createSchemaLib "getItem:query" Demo.zString []
      empty_store
    ≠ (Ret false, empty_store).
Proof.
  destruct (addZodSchema_empty_components Demo.createSchemaLib "getItem:query"
              Demo.zString [] empty_store eq_refl) as (Hplain & _ & Hnot & _).
  destruct (addZodSchema_empty_components Demo.createSchemaLib "getItem:query"
              Demo.zString [Demo.fileField] empty_store eq_refl)
    as (_ & Hraise & _).
  split; [reflexivity|]. split; [exact (Hplain eq_refl)|].
  split; [apply Hraise; discriminate|exact Hnot].
Defined.

Lemma addZodSchema_twice_overwrites_witness :
  ∃ st1 st2,
    addZodSchema Demo.createSchema "me:body" Demo.profileSchema [] empty_store
    = (Ret true, st1)
    ∧ addZodSchema Demo.createSchema "me:body" Demo.avatarSchema
        [Demo.fileField] st1
      = (Ret true, st2)
    ∧ schemas st2 !! "me:body"
      = Some (JObj [("type", JStr "object");
                    ("properties",
                     JObj [("caption", JObj [("type", JStr "string")]);
                           ("file", JObj [("type", JStr "binary");
                                          ("required", JBool true);
                                          ("description", JStr "The upload")])])]).
Proof.
  eexists _, _. split; [reflexivity|]. split; [reflexivity|].
  destruct (addZodSchema_twice_overwrites Demo.createSchema "me:body"
              Demo.profileSchema [] Demo.avatarSchema [Demo.fileField]
              empty_store _ _ eq_refl eq_refl)
    as (comps & o2 & Hc & Hi & Hl & _).
  injection Hc as <-. injection Hi as <-. exact Hl.
Defined.

(** C3, the clause on field injection, refuted: a registration with a file
    field under a name that is taken does not write the field into the
    entry that is there; the entry is replaced, and the field lands in the
    new one. *)
Lemma field_injection_discards_existing_entry :
  ∃ st1 st2 existing merged,
    addZodSchema Demo.createSchema "me:body" Demo.profileSchema [] empty_store
    = (Ret true, st1)
    ∧ addZodSchema Demo.createSchema "me:body" Demo.avatarSchema
        [Demo.fileField] st1
      = (Ret true, st2)
    ∧ schemas st1 !! "me:body" = Some existing
    ∧ inject_fileFields [Demo.fileField] existing = Ret merged
    ∧ schemas st2 !! "me:body" ≠ Some merged.
Proof.
  eexists _, _, _, _. split; [reflexivity|]. split; [reflexivity|].
  split; [vm_compute; reflexivity|]. split; [vm_compute; reflexivity|].
  vm_compute. discriminate.
Qed.

Lemma generateParamDocFromSchema_two_fields_witness :
  ∃ ps st',
    generateParamDocFromSchema Demo.createSchema "search:query"
      (Some (ZodObject [("a", Demo.zString); ("b", Demo.zString)]
               [("id", "SearchQuery")]))
      query ["b"] empty_store
    = (Ret ps, st')
    ∧ ps ≡ₚ [ {| p_name := "a"; p_in := query; p_required := true;
                 p_schema := Demo.createSchema Demo.zString |};
              {| p_name := "b"; p_in := query; p_required := false;
                 p_schema := Demo.createSchema Demo.zString |} ].
Proof.
  apply generateParamDocFromSchema_two_fields;
    [discriminate | discriminate | reflexivity | by eexists].
Defined.

(** [GET /items/:id] registered over a path table that already has an
    operation there, another one under the same path, and another path. *)
Lemma addDocRoute_path_table_witness :
  path_entry (paths Demo.busyStore) "/items/{id}" get
  = Some Demo.staleOperation
  ∧ ∃ st' op,
      addDocRoute Demo.createSchemaLib "UNAUTHORIZED" "VALIDATION_ERROR"
        Demo.errorStatusMap Demo.getItem Demo.busyStore
      = (Ret ["UNAUTHORIZED"; "VALIDATION_ERROR"], st')
      ∧ path_entry (paths st') "/items/{id}" get = Some op
      ∧ op_summary op = summary Demo.getItem
      ∧ op ≠ Demo.staleOperation
      ∧ path_entry (paths st') "/items/{id}" delete = Some Demo.otherOperation
      ∧ path_entry (paths st') "/items" get = Some Demo.otherOperation
      ∧ path_entry (paths st') "/items/{id}" post = None.
Proof.
  split; [reflexivity|]. eexists _.
  destruct (addDocRoute_path_table Demo.createSchemaLib "UNAUTHORIZED"
              "VALIDATION_ERROR" Demo.errorStatusMap Demo.getItem Demo.busyStore
              _ _ eq_refl)
    as (op & st0 & Hc & Hop & Hframe).
  exists op. split; [reflexivity|]. split; [exact Hop|].
  assert (op_summary op = summary Demo.getItem) as Hsum.
  { vm_compute in Hc. injection Hc as <- _. reflexivity. }
  split; [exact Hsum|].
  split; [intros ->; discriminate Hsum|].
  split; [|split].
  - etrans; [apply Hframe; discriminate|reflexivity].
  - etrans; [apply Hframe; discriminate|reflexivity].
  - etrans; [apply Hframe; discriminate|reflexivity].
Defined.

Lemma addDocRoute_authenticated_witness :
  authenticatedUser Demo.getItem ≠ none
  ∧ ∃ st' op,
      addDocRoute Demo.createSchema "UNAUTHORIZED" "VALIDATION_ERROR"
        Demo.errorStatusMap Demo.getItem empty_store
      = (Ret ["UNAUTHORIZED"; "VALIDATION_ERROR"], st')
      ∧ path_entry (paths st') "/items/{id}" get = Some op
      ∧ op_security op = Some bearerAuth
      ∧ op_responses op !! 401%N = Some (errorResponse "UNAUTHORIZED").
Proof.
  split; [discriminate|]. eexists _.
  destruct (addDocRoute_authenticated Demo.createSchema "UNAUTHORIZED"
              "VALIDATION_ERROR" Demo.errorStatusMap Demo.getItem empty_store
              _ _ ltac:(discriminate) eq_refl)
    as (op & Hop & Hsec & _ & _ & _ & Hsole).
  exists op. split; [reflexivity|]. split; [exact Hop|]. split; [exact Hsec|].
  apply Hsole. intros e He Hs.
  apply elem_of_cons in He as [->|He]; [reflexivity|].
  apply list_elem_of_singleton in He as ->. vm_compute in Hs. discriminate.
Defined.

(** C1, the clause on the response entry, refuted: on a table that gives a
    second kind the status of [UNAUTHORIZED], a route that declares that
    kind behind [UNAUTHORIZED] ends with the other kind's response at that
    status. *)
Lemma unauthorized_response_replaced :
  authenticatedUser Demo.refreshSession ≠ none
  ∧ ∃ errs st' op,
      addDocRoute Demo.createSchema "UNAUTHORIZED" "VALIDATION_ERROR"
        Demo.errorStatusMap Demo.refreshSession empty_store
      = (Ret errs, st')
      ∧ path_entry (paths st') "/session" post = Some op
      ∧ op_responses op !! statusOf Demo.errorStatusMap "UNAUTHORIZED"
        = Some (errorResponse "TOKEN_EXPIRED")
      ∧ op_responses op !! statusOf Demo.errorStatusMap "UNAUTHORIZED"
        ≠ Some (errorResponse "UNAUTHORIZED").
Proof.
  split; [discriminate|]. eexists _, _, _.
  split; [vm_compute; reflexivity|]. split; [vm_compute; reflexivity|].
  split; [vm_compute; reflexivity|]. vm_compute. discriminate.
Qed.

Lemma addDocRoute_error_responses_witness :
  ∃ st' op,
    addDocRoute Demo.createSchema "UNAUTHORIZED" "VALIDATION_ERROR"
      Demo.errorStatusMap Demo.getItem empty_store
    = (Ret ["UNAUTHORIZED"; "VALIDATION_ERROR"], st')
    ∧ path_entry (paths st') "/items/{id}" get = Some op
    ∧ op_responses op !! 400%N = Some (errorResponse "VALIDATION_ERROR").
Proof.
  eexists _.
  destruct (addDocRoute_error_responses Demo.createSchema "UNAUTHORIZED"
              "VALIDATION_ERROR" Demo.errorStatusMap Demo.getItem empty_store
              _ _ eq_refl)
    as (op & Hop & _ & Hall).
  exists op. split; [reflexivity|]. split; [exact Hop|].
  destruct (Hall "VALIDATION_ERROR") as (_ & _ & _ & Hsole).
  { apply elem_of_cons. right. by apply list_elem_of_singleton. }
  apply Hsole. intros e He Hs.
  apply elem_of_cons in He as [->|He]; [vm_compute in Hs; discriminate|].
  by apply list_elem_of_singleton in He.
Defined.

(** C6, refuted: of two kinds of the list that resolve to one status, here
    two kinds without entry in the table, both at the default 500, only the
    later keeps its response; the entry at the status of the earlier kind
    references the later kind's schema. *)
Lemma earlier_error_response_replaced :
  ∃ errs st' op,
    addDocRoute Demo.createSchema "UNAUTHORIZED" "VALIDATION_ERROR"
      Demo.errorStatusMap Demo.listItems empty_store
    = (Ret errs, st')
    ∧ path_entry (paths st') "/items" get = Some op
    ∧ "DATABASE_ERROR" ∈ errs
    ∧ Demo.errorStatusMap !! "DATABASE_ERROR" = None
    ∧ Demo.errorStatusMap !! "CACHE_ERROR" = None
    ∧ statusOf Demo.errorStatusMap "DATABASE_ERROR" = 500%N
    ∧ op_responses op !! statusOf Demo.errorStatusMap "DATABASE_ERROR"
      = Some (errorResponse "CACHE_ERROR")
    ∧ op_responses op !! statusOf Demo.errorStatusMap "DATABASE_ERROR"
      ≠ Some (errorResponse "DATABASE_ERROR").
Proof.
  eexists _, _, _.
  split; [vm_compute; reflexivity|]. split; [vm_compute; reflexivity|].
  split; [apply elem_of_cons; by left|].
  split; [vm_compute; reflexivity|]. split; [vm_compute; reflexivity|].
  split; [vm_compute; reflexivity|]. split; [vm_compute; reflexivity|].
  vm_compute. discriminate.
Qed.

Lemma addDocRoute_error_replaces_declared_witness :
  ∃ st' op,
    addDocRoute Demo.createSchema "UNAUTHORIZED" "VALIDATION_ERROR"
      Demo.errorStatusMap Demo.getProfile empty_store
    = (Ret ["UNAUTHORIZED"], st')
    ∧ path_entry (paths st') "/profile" get = Some op
    ∧ op_responses op !! 401%N = Some (errorResponse "UNAUTHORIZED").
Proof.
  eexists _.
  destruct (addDocRoute_error_replaces_declared Demo.createSchema
              "UNAUTHORIZED" "VALIDATION_ERROR" Demo.errorStatusMap
              Demo.getProfile empty_store _ _ 401%N
              {| rd_description := "Sign in first"; rd_schema := None;
                 rd_cookies := None; rd_contentType := None |}
              "UNAUTHORIZED" eq_refl)
    as (op & e & Hop & _ & _ & _ & Hentry & Hsole).
  - apply elem_of_cons. right. apply elem_of_cons. by left.
  - by apply list_elem_of_singleton.
  - reflexivity.
  - exists op. split; [reflexivity|]. split; [exact Hop|].
    rewrite Hentry. f_equal. f_equal. apply Hsole.
    intros e' He' _. by apply list_elem_of_singleton in He'.
Defined.

Lemma addDocRoute_raises_on_file_fields_witness :
  ∃ st',
    addDocRoute Demo.createSchema "UNAUTHORIZED" "VALIDATION_ERROR"
      Demo.errorStatusMap Demo.uploadTags empty_store
    = (Raise TypeError, st')
    ∧ paths st' = paths empty_store.
Proof.
  apply (addDocRoute_raises_on_file_fields Demo.createSchema "UNAUTHORIZED"
           "VALIDATION_ERROR" Demo.errorStatusMap Demo.uploadTags empty_store
           (ZodArray Demo.zString [("id", "Tags")])
           [("Tags", Demo.describe (ZodArray Demo.zString [("id", "Tags")]))]
           Demo.fileField []);
    [reflexivity | reflexivity | reflexivity |].
  intros members props [= <-]. discriminate.
Defined.

Lemma addZodSchema_raises_iff_witness :
  ∃ e st',
    addZodSchema Demo.createSchema "uploadTags:body"
      (ZodArray Demo.zString [("id", "Tags")]) [Demo.fileField] empty_store
    = (Raise e, st').
Proof.
  destruct (addZodSchema_raises_iff Demo.createSchema "uploadTags:body"
              (ZodArray Demo.zString [("id", "Tags")]) [Demo.fileField]
              empty_store) as [[_ Hraise] _].
  apply Hraise. eexists. split; [reflexivity|]. split; [discriminate|].
  intros members props [= <-]. discriminate.
Defined.

Lemma addZodSchema_injects_witness :
  ∃ st' members' props',
    addZodSchema Demo.createSchema "me:body" Demo.avatarSchema
      [Demo.fileField; Demo.thumbnailField] empty_store
    = (Ret true, st')
    ∧ schemas st' !! "me:body" = Some (JObj members')
    ∧ obj_get "properties" members' = Some (JObj props')
    ∧ obj_get "type" members' = Some (JStr "object")
    ∧ obj_get "file" props' = Some (fileFieldSchema Demo.thumbnailField)
    ∧ obj_get "caption" props' = Some (JObj [("type", JStr "string")]).
Proof.
  eexists _.
  destruct (addZodSchema_injects Demo.createSchema "me:body" Demo.avatarSchema
              [Demo.fileField; Demo.thumbnailField] empty_store _
              [("Avatar", Demo.describe Demo.avatarSchema)]
              [("type", JStr "object");
               ("properties", JObj [("caption", Demo.describe Demo.zString)])]
              [("caption", Demo.describe Demo.zString)]
              eq_refl eq_refl eq_refl eq_refl)
    as (members' & props' & Hl & Hp & Hm & Hlast & Hkeep).
  exists members', props'. split; [reflexivity|]. split; [exact Hl|].
  split; [exact Hp|]. split; [by rewrite Hm|].
  split; [by apply Hlast|].
  rewrite Hkeep; [reflexivity|].
  intros f [->|[->|[]%elem_of_nil]%elem_of_cons]%elem_of_cons; discriminate.
Defined.

Lemma generateParamDocFromSchema_object_witness :
  ∃ ps st',
    generateParamDocFromSchema Demo.createSchema "updateProfile:query"
      (Some (ZodObject [("notify", Demo.zString); ("lang", Demo.zString)]
               [("id", "UpdateProfileQuery")]))
      query ["lang"] empty_store
    = (Ret ps, st')
    ∧ p_name <$> ps = ["notify"; "lang"]
    ∧ p_required <$> ps = [true; false].
Proof.
  destruct (generateParamDocFromSchema_object Demo.createSchema
              "updateProfile:query"
              [("notify", Demo.zString); ("lang", Demo.zString)]
              [("id", "UpdateProfileQuery")] query ["lang"] empty_store
              _ ltac:(discriminate) eq_refl)
    as (ps & st' & Hrun & Hnames & _).
  exists ps, st'. split; [exact Hrun|]. split; [exact Hnames|].
  injection Hrun as <- _. reflexivity.
Defined.

Lemma generateParamDocFromSchema_nothing_witness :
  ∃ ps st',
    generateParamDocFromSchema Demo.createSchemaLib "postNote:query"
      (Some (ZodObject [("draft", Demo.zString)] [])) query [] empty_store
    = (Ret ps, st')
    ∧ p_name <$> ps = ["draft"]
    ∧ schemas st' !! "postNote:query" = Some JUndefined.
Proof.
  destruct (generateParamDocFromSchema_nothing Demo.createSchemaLib
              "postNote:query" (Some (ZodObject [("draft", Demo.zString)] []))
              query [] empty_store)
    as (ps & st' & Hrun & _ & _ & _ & Hempty).
  exists ps, st'. split; [exact Hrun|].
  destruct (Hempty _ _ ltac:(discriminate) eq_refl eq_refl) as [Hl ->].
  split; [reflexivity|exact Hl].
Defined.

Lemma generateParamDocFromSchema_not_object_witness :
  ∃ st',
    generateParamDocFromSchema Demo.createSchema "tags:query"
      (Some (ZodArray Demo.zString [("id", "Tags")])) query [] empty_store
    = (Ret [], st')
    ∧ schemas st' !! "tags:query"
      = Some (JObj [("type", JStr "array");
                    ("items", JObj [("type", JStr "string")])]).
Proof.
  apply (generateParamDocFromSchema_not_object Demo.createSchema "tags:query"
           (ZodArray Demo.zString [("id", "Tags")]) query [] empty_store
           [("Tags", Demo.describe (ZodArray Demo.zString [("id", "Tags")]))]);
    [discriminate | discriminate | reflexivity].
Defined.

Lemma addDocRoute_public_plain_witness :
  ∃ st' op,
    addDocRoute Demo.createSchema "UNAUTHORIZED" "VALIDATION_ERROR"
      Demo.errorStatusMap Demo.health empty_store
    = (Ret ["NOT_FOUND"], st')
    ∧ path_entry (paths st') "/health" get = Some op
    ∧ op_parameters op = []
    ∧ op_requestBody op = None
    ∧ op_security op = None.
Proof.
  apply (addDocRoute_public_plain Demo.createSchema "UNAUTHORIZED"
           "VALIDATION_ERROR" Demo.errorStatusMap Demo.health empty_store);
    reflexivity.
Defined.

Lemma addDocRoute_validation_kind_witness :
  ∃ st' op,
    addDocRoute Demo.createSchema "UNAUTHORIZED" "VALIDATION_ERROR"
      Demo.errorStatusMap Demo.updateProfile empty_store
    = (Ret ["UNAUTHORIZED"; "VALIDATION_ERROR"], st')
    ∧ path_entry (paths st') "/users/{userId}/profile" put = Some op
    ∧ (op_parameters op ≠ [] ∨ is_Some (op_requestBody op) →
       "VALIDATION_ERROR" ∈ ["UNAUTHORIZED"; "VALIDATION_ERROR"]).
Proof.
  eexists _.
  destruct (addDocRoute_validation_kind Demo.createSchema "UNAUTHORIZED"
              "VALIDATION_ERROR" Demo.errorStatusMap Demo.updateProfile
              empty_store _ _ eq_refl)
    as (op & Hop & Hin & _).
  exists op. split; [reflexivity|]. split; [exact Hop|exact Hin].
Defined.

Lemma addDocRoute_error_kinds_bounded_witness :
  ∃ errs st',
    addDocRoute Demo.createSchema "UNAUTHORIZED" "VALIDATION_ERROR"
      Demo.errorStatusMap Demo.updateProfile empty_store
    = (Ret errs, st')
    ∧ NoDup errs ∧ (List.length errs ≤ 2)%nat.
Proof.
  eexists _, _.
  destruct (addDocRoute_error_kinds_bounded Demo.createSchema "UNAUTHORIZED"
              "VALIDATION_ERROR" Demo.errorStatusMap Demo.updateProfile
              empty_store _ _ eq_refl)
    as (_ & Hnd & Hlen).
  split; [reflexivity|]. split; [apply Hnd; constructor|exact Hlen].
Defined.

Lemma addDocRoute_parameter_order_witness :
  ∃ st' op,
    addDocRoute Demo.createSchema "UNAUTHORIZED" "VALIDATION_ERROR"
      Demo.errorStatusMap Demo.updateProfile empty_store
    = (Ret ["UNAUTHORIZED"; "VALIDATION_ERROR"], st')
    ∧ path_entry (paths st') "/users/{userId}/profile" put = Some op
    ∧ (λ p, (p_name p, p_in p)) <$> op_parameters op
      = [("userId", path); ("notify", query); ("lang", query);
         ("session", cookie)].
Proof.
  eexists _.
  destruct (addDocRoute_parameter_order Demo.createSchema "UNAUTHORIZED"
              "VALIDATION_ERROR" Demo.errorStatusMap Demo.updateProfile
              empty_store _ _ eq_refl)
    as (op & ps1 & ps2 & ps3 & Hop & Hps & H1 & H2 & H3 & _).
  exists op. split; [reflexivity|]. split; [exact Hop|].
  rewrite Hps. injection H1 as <-. injection H2 as <-. injection H3 as <-.
  reflexivity.
Defined.

(** A body schema without [id]: the components object is empty, the body is
    attached and the entry it references holds [undefined]. *)
Lemma addDocRoute_request_body_witness :
  ∃ st' op,
    addDocRoute Demo.createSchemaLib "UNAUTHORIZED" "VALIDATION_ERROR"
      Demo.errorStatusMap Demo.postNote empty_store
    = (Ret ["VALIDATION_ERROR"], st')
    ∧ path_entry (paths st') "/notes" post = Some op
    ∧ op_requestBody op
      = Some {| rb_required := true;
                rb_content :=
                  (application_json, "#/components/schemas/postNote:body") |}
    ∧ schemas st' !! "postNote:body" = Some JUndefined.
Proof.
  eexists _.
  destruct (addDocRoute_request_body Demo.createSchemaLib "UNAUTHORIZED"
              "VALIDATION_ERROR" Demo.errorStatusMap Demo.postNote
              empty_store _ _ eq_refl)
    as (op & Hop & Hbody & _).
  exists op. split; [reflexivity|]. split; [exact Hop|].
  destruct (Hbody _ [] eq_refl eq_refl) as (o & _ & Hrb & Hl & Hund).
  destruct (Hund eq_refl) as [_ ->]. split; [exact Hrb|exact Hl].
Defined.

Lemma addDocRoute_references_registered_witness :
  ∃ st' op,
    addDocRoute Demo.createSchemaLib "UNAUTHORIZED" "VALIDATION_ERROR"
      Demo.errorStatusMap Demo.postNote empty_store
    = (Ret ["VALIDATION_ERROR"], st')
    ∧ path_entry (paths st') "/notes" post = Some op
    ∧ (∀ x ct ref,
         op_responses op !! 201%N = Some x →
         content x = Some (ct, ref) →
         ref = "#/components/schemas/postNote:response201"
         ∧ schemas st' !! "postNote:response201"
           = Some (Demo.describe Demo.avatarSchema))
    ∧ (∀ rb,
         op_requestBody op = Some rb →
         (rb_content rb).2 = "#/components/schemas/postNote:body"
         ∧ schemas st' !! "postNote:body" = Some JUndefined).
Proof.
  eexists _.
  destruct (addDocRoute_references_registered Demo.createSchemaLib
              "UNAUTHORIZED" "VALIDATION_ERROR" Demo.errorStatusMap
              Demo.postNote empty_store _ _ eq_refl)
    as (op & Hop & Hrefs & Hbody).
  { apply (bool_decide_unpack _). vm_compute. exact I. }
  exists op. split; [reflexivity|]. split; [exact Hop|]. split.
  - intros x ct ref Hx Hct.
    destruct (Hrefs _ _ _ _ Hx Hct)
      as [(e & He & Hs & _)|(r & sch & comps & Hin & Hsch & Hc & -> & Hv)].
    + apply list_elem_of_singleton in He as ->. vm_compute in Hs.
      discriminate Hs.
    + apply list_elem_of_singleton in Hin. injection Hin as ->.
      injection Hsch as <-. injection Hc as <-.
      split; [reflexivity|exact Hv].
  - intros rb Hrb.
    destruct (Hbody rb Hrb) as (body & comps & o & Hb & Hc & Hi & Href & Hv).
    injection Hb as <-. injection Hc as <-. injection Hi as <-.
    split; [exact Href|exact Hv].
Defined.

Lemma addDocRoute_registry_frame_witness :
  ∃ r st',
    addDocRoute Demo.createSchema "UNAUTHORIZED" "VALIDATION_ERROR"
      Demo.errorStatusMap Demo.uploadTags
      {| schemas := {[ "Pagination" := JNull ]}; paths := ∅;
         openapi_json := None |}
    = (r, st')
    ∧ schemas st' !! "Pagination" = Some JNull
    ∧ openapi_json st' = None.
Proof.
  eexists _, _.
  destruct (addDocRoute_registry_frame Demo.createSchema "UNAUTHORIZED"
              "VALIDATION_ERROR" Demo.errorStatusMap Demo.uploadTags
              {| schemas := {[ "Pagination" := JNull ]}; paths := ∅;
                 openapi_json := None |} _ _ eq_refl)
    as (Hframe & _ & Hfile).
  split; [reflexivity|]. split; [|exact Hfile].
  etrans; [apply Hframe|reflexivity].
  vm_compute. intros H.
  repeat (apply elem_of_cons in H as [H|H]; [discriminate|]).
  by apply elem_of_nil in H.
Defined.

Lemma addDocRoute_response_dropped_witness :
  ∃ st' op,
    addDocRoute Demo.createSchema "UNAUTHORIZED" "VALIDATION_ERROR"
      Demo.errorStatusMap Demo.updateProfile empty_store
    = (Ret ["UNAUTHORIZED"; "VALIDATION_ERROR"], st')
    ∧ path_entry (paths st') "/users/{userId}/profile" put = Some op
    ∧ op_responses op !! 422%N = None.
Proof.
  eexists _.
  destruct (addDocRoute_response_dropped Demo.createSchema "UNAUTHORIZED"
              "VALIDATION_ERROR" Demo.errorStatusMap Demo.updateProfile
              empty_store _ _ 422%N
              {| rd_description := "Unprocessable";
                 rd_schema := Some Demo.zString;
                 rd_cookies := None; rd_contentType := None |}
              Demo.zString eq_refl)
    as (op & Hop & Hnone).
  - apply (bool_decide_unpack _). vm_compute. exact I.
  - set_solver.
  - reflexivity.
  - reflexivity.
  - intros e [->|[->|[]%elem_of_nil]%elem_of_cons]%elem_of_cons;
      vm_compute; discriminate.
  - exists op. split; [reflexivity|]. split; [exact Hop|exact Hnone].
Defined.

Lemma addDocRoute_response_written_witness :
  ∃ st' op,
    addDocRoute Demo.createSchema "UNAUTHORIZED" "VALIDATION_ERROR"
      Demo.errorStatusMap Demo.updateProfile empty_store
    = (Ret ["UNAUTHORIZED"; "VALIDATION_ERROR"], st')
    ∧ path_entry (paths st') "/users/{userId}/profile" put = Some op
    ∧ op_responses op !! 204%N
      = Some {| description := "Nothing to do"; setCookie := None;
                content := None |}.
Proof.
  eexists _.
  destruct (addDocRoute_response_written Demo.createSchema "UNAUTHORIZED"
              "VALIDATION_ERROR" Demo.errorStatusMap Demo.updateProfile
              empty_store _ _ 204%N
              {| rd_description := "Nothing to do"; rd_schema := None;
                 rd_cookies := Some "session"; rd_contentType := None |}
              eq_refl)
    as (op & Hop & Hplain & _).
  - apply (bool_decide_unpack _). vm_compute. exact I.
  - set_solver.
  - intros e [->|[->|[]%elem_of_nil]%elem_of_cons]%elem_of_cons;
      vm_compute; discriminate.
  - exists op. split; [reflexivity|]. split; [exact Hop|by apply Hplain].
Defined.

(** The error kinds are registered even by a build whose write fails. *)
Lemma buildOpenApiDoc_registers_error_kinds_witness :
  ∃ st1,
    buildOpenApiDoc Demo.createSchemaByRef DocumentInput (λ di, di)
      (λ _, "{}") (λ _ _, true) Demo.errorNames Demo.errorSchema_shape
      Demo.baseSchemas "development"
      {| schemas := {[ "NOT_FOUND" := JNull ]}; paths := ∅;
         openapi_json := None |}
    = (Raise IOError, st1)
    ∧ schemas st1 !! "NOT_FOUND"
      = Some (Demo.describe
                (customErrorSchema Demo.errorSchema_shape "NOT_FOUND")).
Proof.
  destruct (buildOpenApiDoc_registers_error_kinds Demo.createSchemaByRef
              DocumentInput (λ di, di) (λ _, "{}") (λ _ _, true)
              Demo.errorNames Demo.errorSchema_shape Demo.baseSchemas
              "development"
              {| schemas := {[ "NOT_FOUND" := JNull ]}; paths := ∅;
                 openapi_json := None |}
              "NOT_FOUND"
              [("NOT_FOUND",
                Demo.describe
                  (customErrorSchema Demo.errorSchema_shape "NOT_FOUND"))])
    as (r & st1 & Hrun & Hl & _).
  - apply elem_of_cons. right. apply elem_of_cons. right.
    by apply list_elem_of_singleton.
  - reflexivity.
  - exists st1. split; [|exact Hl].
    pose proof (f_equal fst Hrun) as Hr. vm_compute in Hr.
    rewrite Hr. exact Hrun.
Defined.


Lemma buildOpenApiDoc_file_witness :
  ∃ doc st1,
    buildOpenApiDoc Demo.createSchemaByRef DocumentInput (λ di, di)
      (λ _, "{}") (λ _ _, false) Demo.errorNames Demo.errorSchema_shape
      Demo.baseSchemas "development" empty_store
    = (Ret doc, st1)
    ∧ openapi_json st1 = Some "{}".
Proof.
  eexists _, _. split; [reflexivity|].
  by apply (buildOpenApiDoc_file Demo.createSchemaByRef DocumentInput
              (λ di, di) (λ _, "{}") (λ _ _, false) Demo.errorNames
              Demo.errorSchema_shape Demo.baseSchemas "development"
              empty_store _ _ eq_refl).
Defined.

(** Two builds in a row after [GET /items/:id] was registered. *)
Lemma buildOpenApiDoc_twice_witness :
  ∃ st doc st1 st2,
    addDocRoute Demo.createSchemaLib "UNAUTHORIZED" "VALIDATION_ERROR"
      Demo.errorStatusMap Demo.getItem empty_store
    = (Ret ["UNAUTHORIZED"; "VALIDATION_ERROR"], st)
    ∧ buildOpenApiDoc Demo.createSchemaLib DocumentInput (λ di, di)
        (λ _, "{}") (λ _ _, false) Demo.errorNames Demo.errorSchema_shape
        Demo.baseSchemas "development" st
      = (Ret doc, st1)
    ∧ buildOpenApiDoc Demo.createSchemaLib DocumentInput (λ di, di)
        (λ _, "{}") (λ _ _, false) Demo.errorNames Demo.errorSchema_shape
        Demo.baseSchemas "development" st1
      = (Ret doc, st2)
    ∧ di_paths doc = paths st
    ∧ dom (paths st) = {[ "/items/{id}" ]}
    ∧ di_schemas doc = schemas st1
    ∧ schemas st2 = schemas st1
    ∧ paths st2 = paths st1
    ∧ dom (schemas st1)
      = {[ "getItem:params"; "getItem:response200"; "Pagination";
           "UNAUTHORIZED"; "VALIDATION_ERROR"; "NOT_FOUND" ]}.
Proof.
  set (build := buildOpenApiDoc Demo.createSchemaLib DocumentInput (λ di, di)
                  (λ _, "{}") (λ _ _, false) Demo.errorNames
                  Demo.errorSchema_shape Demo.baseSchemas "development").
  set (st := (addDocRoute Demo.createSchemaLib "UNAUTHORIZED"
                "VALIDATION_ERROR" Demo.errorStatusMap Demo.getItem
                empty_store).2).
  set (doc := builtInput Demo.createSchemaLib Demo.errorNames
                Demo.errorSchema_shape Demo.baseSchemas (schemas st)
                (paths st)).
  set (st1 := (build st).2). set (st2 := (build st1).2).
  assert (H1 : build st = (Ret doc, st1)) by (vm_compute; reflexivity).
  assert (H2 : build st1 = (Ret doc, st2)) by (vm_compute; reflexivity).
  exists st, doc, st1, st2.
  split; [vm_compute; reflexivity|]. split; [exact H1|]. split; [exact H2|].
  destruct (buildOpenApiDoc_twice Demo.createSchemaLib DocumentInput
              (λ di, di) (λ _, "{}") (λ _ _, false) Demo.errorNames
              Demo.errorSchema_shape Demo.baseSchemas "development"
              st doc st1 doc st2 H1 H2)
    as (_ & Hdoc & Hs1 & _ & _ & Hs2 & Hp2).
  split; [reflexivity|]. split; [vm_compute; reflexivity|].
  split; [exact (eq_sym Hs1)|]. split; [exact Hs2|]. split; [exact Hp2|].
  vm_compute. reflexivity.
Defined.

Lemma addDocRoute_then_build_witness :
  ∃ st' doc st1 op,
    addDocRoute Demo.createSchemaByRef "UNAUTHORIZED" "VALIDATION_ERROR"
      Demo.errorStatusMap Demo.getItem empty_store
    = (Ret ["UNAUTHORIZED"; "VALIDATION_ERROR"], st')
    ∧ buildOpenApiDoc Demo.createSchemaByRef DocumentInput (λ di, di)
        (λ _, "{}") (λ _ _, false) Demo.errorNames Demo.errorSchema_shape
        Demo.baseSchemas "production" st'
      = (Ret doc, st1)
    ∧ path_entry (di_paths doc) "/items/{id}" get = Some op
    ∧ ∀ x ct ref,
        op_responses op !! 401%N = Some x →
        content x = Some (ct, ref) →
        ref = "#/components/schemas/UNAUTHORIZED"
        ∧ di_schemas doc !! "UNAUTHORIZED"
          = Some (Demo.describe
                    (customErrorSchema Demo.errorSchema_shape "UNAUTHORIZED")).
Proof.
  set (register := addDocRoute Demo.createSchemaByRef "UNAUTHORIZED"
                     "VALIDATION_ERROR" Demo.errorStatusMap Demo.getItem).
  set (build := buildOpenApiDoc Demo.createSchemaByRef DocumentInput
                  (λ di, di) (λ _, "{}") (λ _ _, false) Demo.errorNames
                  Demo.errorSchema_shape Demo.baseSchemas "production").
  set (st' := (register empty_store).2).
  set (doc := builtInput Demo.createSchemaByRef Demo.errorNames
                Demo.errorSchema_shape Demo.baseSchemas (schemas st')
                (paths st')).
  set (st1 := (build st').2).
  assert (H0 : register empty_store
               = (Ret ["UNAUTHORIZED"; "VALIDATION_ERROR"], st'))
    by (vm_compute; reflexivity).
  assert (H1 : build st' = (Ret doc, st1)) by (vm_compute; reflexivity).
  destruct (addDocRoute_then_build Demo.createSchemaByRef DocumentInput
              (λ di, di) (λ _, "{}") (λ _ _, false) "UNAUTHORIZED"
              "VALIDATION_ERROR" Demo.errorNames Demo.errorStatusMap
              Demo.errorSchema_shape Demo.baseSchemas "production"
              Demo.getItem empty_store _ st' doc st1 H0
              ltac:(apply (bool_decide_unpack _); vm_compute; exact I)
              H1)
    as (di & op & Hdoc & _ & _ & _ & Hop & Hrefs & _).
  exists st', doc, st1, op. split; [exact H0|]. split; [exact H1|].
  simpl in Hdoc. rewrite <-Hdoc in Hop, Hrefs. split; [exact Hop|].
  intros x ct ref Hx Hct.
  destruct (Hrefs _ _ _ _ Hx Hct)
    as [(e & He & Hs & -> & Hv & _)|(r & sch & comps & Hin & _)].
  - apply elem_of_cons in He as [->|He].
    + split; [reflexivity|].
      apply (Hv [("UNAUTHORIZED",
                  Demo.describe
                    (customErrorSchema Demo.errorSchema_shape "UNAUTHORIZED"))]);
        [|reflexivity].
      apply elem_of_cons. by left.
    + apply list_elem_of_singleton in He as ->. vm_compute in Hs.
      discriminate Hs.
  - apply list_elem_of_singleton in Hin. discriminate Hin.
Defined.

Lemma translate_segmentwise_witness :
  PathSyntax.expressRouteToOpenApiRoute ("/users/:userId" +:+ "/:postId")
  = PathSyntax.expressRouteToOpenApiRoute "/users/:userId"
    +:+ String "/" (PathSyntax.expressRouteToOpenApiRoute ":postId").
Proof.
  apply (PathSyntaxFacts.translate_segmentwise "/users/:userId" "/" ":postId");
    reflexivity.
Defined.

Lemma translate_fixed_points_witness :
  PathSyntax.expressRouteToOpenApiRoute "/health" = "/health".
Proof. by apply (PathSyntaxFacts.translate_fixed_points "/health"). Defined.

Example joinUrl_documented :
  SiteMap.joinUrl "/products" "/recommended" = "/products/recommended"
  ∧ SiteMap.joinUrl "" "/register" = "/register"
  ∧ SiteMap.joinUrl "/admin" "/products" = "/admin/products"
  ∧ SiteMap.joinUrl "/" "" = "/"
  ∧ SiteMap.joinUrl "/a//" "//b/" = "/a/b/".
Proof. repeat split; reflexivity. Qed.

Example collectRoutes_sample :
  SiteMap.collectRoutes SiteMapDemo.EXCLUDED_PREFIXES SiteMapDemo.CLIENT_ROUTES
    "" []
  = ["/"; "/products"; "/products/recommended"].
Proof. vm_compute. reflexivity. Qed.

Lemma xmlEscape_single_pass_witness :
  SiteMap.xmlEscape ("a<b" +:+ "&c") = SiteMap.xmlEscape "a<b" +:+ "&amp;c"
  ∧ SiteMap.xmlEscape "x" = "x".
Proof.
  destruct SiteMapFacts.xmlEscape_single_pass as (Happ & _ & _ & _ & _ & _ & Hc).
  split; [apply Happ|]. apply Hc; discriminate.
Defined.

Lemma xmlEscape_clean_witness :
  SiteMap.occurs "<" (SiteMap.xmlEscape "<a href='x'>") = false.
Proof. apply SiteMapFacts.xmlEscape_clean. by left. Defined.

Lemma xmlEscape_injective_witness :
  SiteMap.xmlEscape "a&b" = SiteMap.xmlEscape ("a" +:+ "&b") ∧ "a&b" = "a" +:+ "&b".
Proof.
  split; [reflexivity|].
  apply SiteMapFacts.xmlEscape_injective. reflexivity.
Defined.

Lemma joinUrl_absolute_witness :
  SiteMap.begins_with_slash (SiteMap.joinUrl "/products" "recommended") = true.
Proof.
  apply (SiteMapFacts.joinUrl_absolute "/products" "recommended").
  right. reflexivity.
Defined.

Lemma collectRoutes_indexable_witness :
  SiteMap.isParamRoute "/products/recommended" = false
  ∧ SiteMap.isExcluded SiteMapDemo.EXCLUDED_PREFIXES "/products/recommended"
    = false.
Proof.
  destruct (SiteMapFacts.collectRoutes_indexable SiteMapDemo.EXCLUDED_PREFIXES
              SiteMapDemo.CLIENT_ROUTES "" []) as [_ Hin].
  destruct (Hin "/products/recommended") as [[]%elem_of_nil|H]; [|exact H].
  vm_compute. apply elem_of_cons. right. apply elem_of_cons. right.
  apply elem_of_cons. by left.
Defined.

Lemma collectRoutes_absolute_witness :
  SiteMap.begins_with_slash "/products" = true.
Proof.
  destruct (SiteMapFacts.collectRoutes_absolute SiteMapDemo.EXCLUDED_PREFIXES
              SiteMapDemo.CLIENT_ROUTES "" [] "/products")
    as [[]%elem_of_nil|H]; [by left| |exact H].
  vm_compute. apply elem_of_cons. right. apply elem_of_cons. by left.
Defined.

Lemma unique_spec_witness :
  SiteMap.unique ["/"; "/a"; "/b"] = ["/"; "/a"; "/b"]
  ∧ NoDup (SiteMap.unique ["/"; "/a"; "/"; "/a"; "/b"]).
Proof.
  split.
  - apply (SiteMapFacts.unique_spec ["/"; "/a"; "/b"]).
    apply (bool_decide_unpack _). vm_compute. exact I.
  - apply (SiteMapFacts.unique_spec ["/"; "/a"; "/"; "/a"; "/b"]).
Defined.

Lemma addDocRoute_security_iff_witness :
  ∃ st' op,
    addDocRoute Demo.createSchema "UNAUTHORIZED" "VALIDATION_ERROR"
      Demo.errorStatusMap Demo.listItems empty_store
    = (Ret ["DATABASE_ERROR"; "CACHE_ERROR"], st')
    ∧ path_entry (paths st') "/items" get = Some op
    ∧ op_security op = None.
Proof.
  eexists _.
  destruct (addDocRoute_security_iff Demo.createSchema "UNAUTHORIZED"
              "VALIDATION_ERROR" Demo.errorStatusMap Demo.listItems
              empty_store _ _ eq_refl)
    as (op & Hop & Hnone & _).
  exists op. split; [reflexivity|]. split; [exact Hop|]. by apply Hnone.
Defined.
